(** * Optimization-rule matching: [OptimizationRuleModel.matchByRules]

    A shallow embedding of the static method [matchByRules] of
    [OptimizationRuleModel] (TypeScript), together with the parts of the
    JavaScript object semantics the method relies on:

    - [rulesByModel] is an ordinary object created by the literal [{}].
      A property read [rulesByModel[model]] looks at the object's own
      properties first and then at [Object.prototype];
    - [Object.entries] lists the own properties with the keys that are
      array indices first, in ascending numeric order, and then the other
      string keys in the order they were created;
    - a comparison [n > undefined] is [false], and [b !== undefined] is
      [true].

    Token counts and length bounds are integers, modelled in [Z]. *)

From Stdlib Require Import List Bool ZArith NArith Lia String Ascii Permutation.
From Stdlib Require Import Sorted.
Import ListNotations.
Local Open Scope string_scope.
Local Open Scope list_scope.

(** ** Data model *)

(** The request context: [{ tokenCount: number; hasTools: boolean }]. *)
Module RequestContext.
Record t : Type := mk { tokenCount : Z; hasTools : bool }.
End RequestContext.

(** The [conditions] payload, a JSON object.  Its static type is
    [ContentLengthConditions | ToolPresenceConditions], that is
    [{ maxLength: number }] or [{ hasTools: boolean }]; a property that the
    object does not carry reads as [undefined], which is [None] here. *)
Module Conditions.
Record t : Type := mk { maxLength : option Z; hasTools : option bool }.
End Conditions.

Definition ContentLengthConditions (maxLength : Z) : Conditions.t :=
  Conditions.mk (Some maxLength) None.

Definition ToolPresenceConditions (hasTools : bool) : Conditions.t :=
  Conditions.mk None (Some hasTools).

(** An [OptimizationRule] row.  [ruleType] is kept as the string the code
    compares against its two literals. *)
Record OptimizationRule : Type := mkRule {
  id : string;
  entityType : string;
  entityId : string;
  provider : string;
  ruleType : string;
  conditions : Conditions.t;
  targetModel : string;
  enabled : bool
}.

(** ** JavaScript values and operators used by the method *)

(** [n > v] for a number [n] and a possibly absent number [v]. *)
Definition js_gt (n : Z) (v : option Z) : bool :=
  match v with
  | Some k => (n >? k)%Z
  | None => false
  end.

(** [b !== v] for a boolean [b] and a possibly absent boolean [v]. *)
Definition js_strict_neq (b : bool) (v : option bool) : bool :=
  match v with
  | Some b' => negb (Bool.eqb b b')
  | None => true
  end.

(** The result of running a piece of code that may throw. *)
Inductive JsError : Type := TypeError.

Inductive Completion (A : Type) : Type :=
| Normal (a : A)
| Throw (e : JsError).
Arguments Normal {A} a.
Arguments Throw {A} e.

Definition bind {A B : Type} (c : Completion A) (k : A -> Completion B)
  : Completion B :=
  match c with
  | Normal a => k a
  | Throw e => Throw e
  end.

Notation "x <- c ;; k" := (bind c (fun x => k))
  (at level 61, c at next level, right associativity).

(** The property names every ordinary object inherits from
    [Object.prototype]. *)
Definition objectPrototypeKeys : list string :=
  [ "constructor"; "__defineGetter__"; "__defineSetter__"; "hasOwnProperty";
    "__lookupGetter__"; "__lookupSetter__"; "isPrototypeOf";
    "propertyIsEnumerable"; "toString"; "valueOf"; "__proto__";
    "toLocaleString" ].

Definition inherited (k : string) : bool :=
  existsb (String.eqb k) objectPrototypeKeys.

(** Array indices: the canonical decimal strings of the integers from 0 to
    2^32 - 2. *)
Definition digit (c : ascii) : option N :=
  let n := N_of_ascii c in
  if ((48 <=? n) && (n <=? 57))%N then Some (n - 48)%N else None.

Fixpoint digits (acc : N) (s : string) : option N :=
  match s with
  | EmptyString => Some acc
  | String c rest =>
      match digit c with
      | Some d => digits (10 * acc + d)%N rest
      | None => None
      end
  end.

Definition arrayIndex (s : string) : option N :=
  match s with
  | EmptyString => None
  | String "0"%char EmptyString => Some 0%N
  | String "0"%char _ => None
  | _ =>
      match digits 0%N s with
      | Some n => if (n <=? 4294967294)%N then Some n else None
      | None => None
      end
  end.

Definition isArrayIndex (s : string) : bool :=
  match arrayIndex s with Some _ => true | None => false end.

(** ** The object [rulesByModel] *)

(** Own properties in creation order; each value is an array of rules. *)
Definition Groups : Type := list (string * list OptimizationRule).

Fixpoint getOwn (o : Groups) (k : string) : option (list OptimizationRule) :=
  match o with
  | [] => None
  | (k', v) :: o' => if String.eqb k' k then Some v else getOwn o' k
  end.

(** [o[k].push(rule)] on an own property [k]. *)
Fixpoint pushOwn (o : Groups) (k : string) (rule : OptimizationRule) : Groups :=
  match o with
  | [] => []
  | (k', v) :: o' =>
      if String.eqb k' k then (k', v ++ [rule]) :: o'
      else (k', v) :: pushOwn o' k rule
  end.

(** Insertion of an entry among entries sorted by array index. *)
Fixpoint insertIndexed (e : N * (string * list OptimizationRule))
  (l : list (N * (string * list OptimizationRule)))
  : list (N * (string * list OptimizationRule)) :=
  match l with
  | [] => [e]
  | h :: t => if (fst e <=? fst h)%N then e :: l else h :: insertIndexed e t
  end.

Fixpoint indexedEntries (o : Groups)
  : list (N * (string * list OptimizationRule)) :=
  match o with
  | [] => []
  | (k, v) :: o' =>
      match arrayIndex k with
      | Some n => insertIndexed (n, (k, v)) (indexedEntries o')
      | None => indexedEntries o'
      end
  end.

(** [Object.entries(o)]. *)
Definition entries (o : Groups) : Groups :=
  map snd (indexedEntries o)
  ++ filter (fun e => negb (isArrayIndex (fst e))) o.

(** ** [matchByRules] *)

(** One iteration of the first loop: the body of
    [for (const rule of rules)]. *)
Definition groupStep (rulesByModel : Groups) (rule : OptimizationRule)
  : Completion Groups :=
  if negb (enabled rule) then Normal rulesByModel
  else
    let model := targetModel rule in
    match getOwn rulesByModel model with
    | Some _ => Normal (pushOwn rulesByModel model rule)
    | None =>
        if inherited model then Throw TypeError
        else Normal (rulesByModel ++ [(model, [rule])])
    end.

Fixpoint groupRules (rulesByModel : Groups) (rules : list OptimizationRule)
  : Completion Groups :=
  match rules with
  | [] => Normal rulesByModel
  | rule :: rest =>
      o <- groupStep rulesByModel rule ;;
      groupRules o rest
  end.

(** The test of the innermost loop that sets [match = false] and breaks. *)
Definition ruleFails (context : RequestContext.t) (rule : OptimizationRule)
  : bool :=
  if String.eqb (ruleType rule) "content_length" then
    js_gt (RequestContext.tokenCount context)
          (Conditions.maxLength (conditions rule))
  else if String.eqb (ruleType rule) "tool_presence" then
    js_strict_neq (RequestContext.hasTools context)
                  (Conditions.hasTools (conditions rule))
  else false.

(** The innermost loop: the final value of [match] for one group. *)
Fixpoint groupMatches (context : RequestContext.t)
  (modelRules : list OptimizationRule) : bool :=
  match modelRules with
  | [] => true
  | rule :: rest =>
      if ruleFails context rule then false else groupMatches context rest
  end.

(** The second loop, over [Object.entries(rulesByModel)]. *)
Fixpoint firstMatch (context : RequestContext.t) (es : Groups)
  : option string :=
  match es with
  | [] => None
  | (model, modelRules) :: rest =>
      if groupMatches context modelRules then Some model
      else firstMatch context rest
  end.

(** [matchByRules(rules, context)]; [None] is [null]. *)
Definition matchByRules (rules : list OptimizationRule)
  (context : RequestContext.t) : Completion (option string) :=
  rulesByModel <- groupRules [] rules ;;
  Normal (firstMatch context (entries rulesByModel)).

(** ** Sample data *)

Definition sampleRule (ty : string) (c : Conditions.t) (model : string)
  (en : bool) : OptimizationRule :=
  mkRule "r" "organization" "org" "openai" ty c model en.

Definition ctx (n : Z) (b : bool) : RequestContext.t :=
  RequestContext.mk n b.

Definition sampleRules : list OptimizationRule :=
  [ sampleRule "content_length" (ContentLengthConditions 50)
      "small-model" true;
    sampleRule "content_length" (ContentLengthConditions 500)
      "large-model" true ].

(** ** Specification-level view of the grouping *)

Definition enabledRules (rules : list OptimizationRule)
  : list OptimizationRule :=
  filter enabled rules.

Definition hasTarget (model : string) (r : OptimizationRule) : bool :=
  String.eqb (targetModel r) model.

(** The enabled rules of one target model, in input order. *)
Definition groupOf (model : string) (rules : list OptimizationRule)
  : list OptimizationRule :=
  filter (hasTarget model) (enabledRules rules).

Definition mem (x : string) (l : list string) : bool :=
  existsb (String.eqb x) l.

(** The distinct elements of a list, in the order of their first
    occurrence. *)
Fixpoint firstSeen (l : list string) : list string :=
  match l with
  | [] => []
  | x :: t => x :: filter (fun y => negb (String.eqb y x)) (firstSeen t)
  end.

(** The target models of the enabled rules, in first-encounter order. *)
Definition encounterOrder (rules : list OptimizationRule) : list string :=
  firstSeen (map targetModel (enabledRules rules)).

(** The object the first loop builds when it does not throw. *)
Definition groupsOf (rules : list OptimizationRule) : Groups :=
  map (fun m => (m, groupOf m rules)) (encounterOrder rules).

Definition ruleMatches (context : RequestContext.t) (r : OptimizationRule)
  : bool :=
  negb (ruleFails context r).

(** A target model fully matches when it has an enabled rule and the loop
    over its group ends with [match] still [true]. *)
Definition fullyMatches (rules : list OptimizationRule)
  (context : RequestContext.t) (model : string) : bool :=
  mem model (map targetModel (enabledRules rules))
  && groupMatches context (groupOf model rules).

(** Some enabled rule targets a name inherited from [Object.prototype]. *)
Definition targetsInherited (rules : list OptimizationRule) : bool :=
  existsb (fun r => inherited (targetModel r)) (enabledRules rules).

(** Some enabled rule targets an array index. *)
Definition targetsArrayIndex (rules : list OptimizationRule) : bool :=
  existsb (fun r => isArrayIndex (targetModel r)) (enabledRules rules).

(** A rule whose payload has the shape its [ruleType] declares. *)
Definition wellTyped (r : OptimizationRule) : bool :=
  if String.eqb (ruleType r) "content_length" then
    match Conditions.maxLength (conditions r) with
    | Some _ => true | None => false end
  else if String.eqb (ruleType r) "tool_presence" then
    match Conditions.hasTools (conditions r) with
    | Some _ => true | None => false end
  else false.

Definition recognized (ty : string) : bool :=
  String.eqb ty "content_length" || String.eqb ty "tool_presence".

(** The rules the innermost loop runs its body on: every rule up to and
    including the first failing one, where it breaks. *)
Fixpoint visitedRules (context : RequestContext.t)
  (modelRules : list OptimizationRule) : list OptimizationRule :=
  match modelRules with
  | [] => []
  | rule :: rest =>
      rule :: (if ruleFails context rule then []
               else visitedRules context rest)
  end.

(** The specification's reading of a rule's condition: a [content_length]
    rule asks that the token count be at most [maxLength], a
    [tool_presence] rule that the request's [hasTools] equal the rule's. *)
Definition conditionHolds (context : RequestContext.t)
  (r : OptimizationRule) : Prop :=
  (ruleType r = "content_length" /\
   exists n, Conditions.maxLength (conditions r) = Some n /\
             (RequestContext.tokenCount context <= n)%Z)
  \/
  (ruleType r = "tool_presence" /\
   Conditions.hasTools (conditions r)
   = Some (RequestContext.hasTools context)).

(** Two objects with the same keys in the same order whose groups get the
    same verdict. *)
Definition sameVerdicts (context : RequestContext.t) (o1 o2 : Groups) : Prop :=
  Forall2 (fun e1 e2 =>
             fst e1 = fst e2 /\
             groupMatches context (snd e1) = groupMatches context (snd e2))
          o1 o2.

Definition sameIndexedVerdicts (context : RequestContext.t)
  (l1 l2 : list (N * (string * list OptimizationRule))) : Prop :=
  Forall2 (fun e1 e2 =>
             fst e1 = fst e2 /\ fst (snd e1) = fst (snd e2) /\
             groupMatches context (snd (snd e1))
             = groupMatches context (snd (snd e2)))
          l1 l2.

(** More sample data. *)
Definition lengthRule (n : Z) (model : string) : OptimizationRule :=
  sampleRule "content_length" (ContentLengthConditions n) model true.

Definition toolsRule (b : bool) (model : string) : OptimizationRule :=
  sampleRule "tool_presence" (ToolPresenceConditions b) model true.

(** A rule of a type the method does not know. *)
Definition unknownRule : OptimizationRule :=
  sampleRule "regex" (Conditions.mk None None) "small-model" true.

(** A [content_length] rule carrying a [tool_presence] payload. *)
Definition malformedRule : OptimizationRule :=
  sampleRule "content_length" (ToolPresenceConditions true) "small-model" true.

(** A [tool_presence] rule carrying a [content_length] payload. *)
Definition malformedToolsRule : OptimizationRule :=
  sampleRule "tool_presence" (ContentLengthConditions 100) "small-model" true.

(** Two groups whose model names are array indices, the larger first. *)
Definition indexRules : list OptimizationRule :=
  [ lengthRule 500 "2"; lengthRule 500 "1" ].

(** ** Further definitions on the matcher *)

(** Two rules that agree on the four fields [matchByRules] reads. *)
Definition agreeOnMatchedFields (r1 r2 : OptimizationRule) : Prop :=
  enabled r1 = enabled r2 /\ targetModel r1 = targetModel r2 /\
  ruleType r1 = ruleType r2 /\ conditions r1 = conditions r2.

(** Entries in ascending order of their array index. *)
Definition indexOrdered
  (l : list (N * (string * list OptimizationRule))) : Prop :=
  StronglySorted (fun e1 e2 => (fst e1 <= fst e2)%N) l.

(** ** The rule store: the queries of [OptimizationRuleModel]

    The tables are lists of rows.  Conditions are SQL truth values, with
    [None] for NULL; a [where] or [on] clause keeps a row when its condition
    is true.  The columns of [optimizationRulesTable] are never NULL; the
    columns of [teamsTable] are NULL on the rows a left join pads. *)

Module Team.
Record t : Type := mk { id : string; organizationId : string }.
End Team.

Record Database : Type := mkDatabase {
  optimizationRulesTable : list OptimizationRule;
  teamsTable : list Team.t
}.

(** [eq(a, b)] on text columns. *)
Definition sql_eq (a b : option string) : option bool :=
  match a, b with
  | Some x, Some y => Some (String.eqb x y)
  | _, _ => None
  end.

(** [eq(a, b)] on boolean columns. *)
Definition sql_eq_bool (a b : option bool) : option bool :=
  match a, b with
  | Some x, Some y => Some (Bool.eqb x y)
  | _, _ => None
  end.

(** [and(a, b)]. *)
Definition sql_and (a b : option bool) : option bool :=
  match a, b with
  | Some false, _ => Some false
  | _, Some false => Some false
  | Some true, Some true => Some true
  | _, _ => None
  end.

(** [or(a, b)]. *)
Definition sql_or (a b : option bool) : option bool :=
  match a, b with
  | Some true, _ => Some true
  | _, Some true => Some true
  | Some false, Some false => Some false
  | _, _ => None
  end.

Definition sql_true (c : option bool) : bool :=
  match c with
  | Some true => true
  | _ => false
  end.

(** [from(left).leftJoin(right, on)]: every left row with each right row
    that satisfies [on], or once with NULLs when there is none. *)
Definition leftJoin {A B : Type} (on : A -> B -> option bool)
  (left : list A) (right : list B) : list (A * option B) :=
  flat_map
    (fun a =>
       match filter (fun b => sql_true (on a b)) right with
       | [] => [(a, None)]
       | bs => map (fun b => (a, Some b)) bs
       end)
    left.

(** [findByOrganizationId(organizationId)]. *)
Definition findByOrganizationId (db : Database) (organizationId : string)
  : list OptimizationRule :=
  map fst
    (filter
       (fun row =>
          sql_true
            (sql_or
               (sql_and
                  (sql_eq (Some (entityType (fst row))) (Some "organization"))
                  (sql_eq (Some (entityId (fst row))) (Some organizationId)))
               (sql_and
                  (sql_eq (Some (entityType (fst row))) (Some "team"))
                  (sql_eq (option_map Team.organizationId (snd row))
                          (Some organizationId)))))
       (leftJoin
          (fun r t =>
             sql_and
               (sql_eq (Some (entityType r)) (Some "team"))
               (sql_eq (Some (entityId r)) (Some (Team.id t))))
          (optimizationRulesTable db) (teamsTable db))).

(** [findEnabledByOrganizationAndProvider(organizationId, provider)]. *)
Definition findEnabledByOrganizationAndProvider (db : Database)
  (organizationId : string) (provider_ : string) : list OptimizationRule :=
  filter
    (fun r =>
       sql_true
         (sql_and
            (sql_eq (Some (entityType r)) (Some "organization"))
            (sql_and
               (sql_eq (Some (entityId r)) (Some organizationId))
               (sql_and
                  (sql_eq (Some (provider r)) (Some provider_))
                  (sql_eq_bool (Some (enabled r)) (Some true))))))
    (optimizationRulesTable db).

(** [delete(id)]: the database after the statement and the value returned,
    [result.rowCount !== null && result.rowCount > 0]. *)
Definition delete (db : Database) (id_ : string) : Database * bool :=
  let hit := fun r => sql_true (sql_eq (Some (id r)) (Some id_)) in
  let rowCount : option nat :=
    Some (List.length (filter hit (optimizationRulesTable db))) in
  (mkDatabase (filter (fun r => negb (hit r)) (optimizationRulesTable db))
              (teamsTable db),
   match rowCount with
   | Some n => Nat.ltb 0 n
   | None => false
   end).

(** The rules [findByOrganizationId] is after: those of the organization
    and those of a team of the organization. *)
Definition visibleTo (db : Database) (organizationId : string)
  (r : OptimizationRule) : Prop :=
  (entityType r = "organization" /\ entityId r = organizationId)
  \/ (entityType r = "team" /\
      exists t, In t (teamsTable db) /\ Team.id t = entityId r
                /\ Team.organizationId t = organizationId).

(** [visibleTo] as a test. *)
Definition visibleToB (db : Database) (organizationId : string)
  (r : OptimizationRule) : bool :=
  (String.eqb (entityType r) "organization"
   && String.eqb (entityId r) organizationId)
  || (String.eqb (entityType r) "team"
      && existsb (fun t => String.eqb (entityId r) (Team.id t)
                           && String.eqb (Team.organizationId t)
                                         organizationId)
                 (teamsTable db)).

(** A small database: two organization rules, one of them disabled, a rule
    of a team of the organization, and a rule of a foreign team. *)
Definition sampleDb : Database :=
  mkDatabase
    [ mkRule "r1" "organization" "org" "openai" "content_length"
        (ContentLengthConditions 50) "small-model" true;
      mkRule "r2" "organization" "org" "openai" "content_length"
        (ContentLengthConditions 500) "large-model" false;
      mkRule "r3" "team" "t1" "openai" "tool_presence"
        (ToolPresenceConditions true) "tool-model" true;
      mkRule "r4" "team" "t2" "openai" "content_length"
        (ContentLengthConditions 10) "tiny-model" true ]
    [ Team.mk "t1" "org"; Team.mk "t2" "other" ].

(** ** The connection instructions: [ProxyConnectionInstructions] *)

Inductive SupportedProvider : Type :=
| openai | gemini | anthropic | cerebras | mistral | cohere | vllm | ollama
| zhipuai | bedrock.

(** [ProviderOption = SupportedProvider | "claude-code"]. *)
Inductive ProviderOption : Type :=
| supported (p : SupportedProvider)
| claude_code.

(** The string a provider option is at run time. *)
Definition providerString (p : ProviderOption) : string :=
  match p with
  | supported openai => "openai"
  | supported gemini => "gemini"
  | supported anthropic => "anthropic"
  | supported cerebras => "cerebras"
  | supported mistral => "mistral"
  | supported cohere => "cohere"
  | supported vllm => "vllm"
  | supported ollama => "ollama"
  | supported zhipuai => "zhipuai"
  | supported bedrock => "bedrock"
  | claude_code => "claude-code"
  end.

(** An entry of [PROVIDER_CONFIG]: [{ label, originalUrl }] or
    [{ label, isCommand: true }]. *)
Inductive ProviderConfigEntry : Type :=
| UrlEntry (label originalUrl : string)
| CommandEntry (label : string).

(** [PROVIDER_CONFIG]; the table [providerDisplayNames] comes from another
    package and is a parameter. *)
Definition PROVIDER_CONFIG (providerDisplayNames : SupportedProvider -> string)
  (p : ProviderOption) : ProviderConfigEntry :=
  match p with
  | supported openai =>
      UrlEntry (providerDisplayNames openai) "https://api.openai.com/v1/"
  | supported gemini =>
      UrlEntry (providerDisplayNames gemini)
               "https://generativelanguage.googleapis.com/v1/"
  | supported anthropic =>
      UrlEntry (providerDisplayNames anthropic) "https://api.anthropic.com/v1/"
  | supported cerebras =>
      UrlEntry (providerDisplayNames cerebras) "https://api.cerebras.ai/v1/"
  | supported mistral =>
      UrlEntry (providerDisplayNames mistral) "https://api.mistral.ai/v1/"
  | supported cohere =>
      UrlEntry (providerDisplayNames cohere) "https://api.cohere.com/v2/"
  | supported vllm =>
      UrlEntry (providerDisplayNames vllm) "http://localhost:8000/v1/"
  | supported ollama =>
      UrlEntry (providerDisplayNames ollama) "http://localhost:11434/v1/"
  | supported zhipuai =>
      UrlEntry (providerDisplayNames zhipuai) "https://open.bigmodel.cn/api/"
  | supported bedrock =>
      UrlEntry (providerDisplayNames bedrock)
               "https://bedrock-runtime.your-region.amazonaws.com/"
  | claude_code => CommandEntry "Claude Code"
  end.

(** [provider === "claude-code" ? "anthropic" : provider]. *)
Definition getProviderPath (provider_ : ProviderOption) : ProviderOption :=
  match provider_ with
  | claude_code => supported anthropic
  | p => p
  end.

(** An optional string used as a condition: its value when it is truthy,
    nothing when it is [undefined] or the empty string. *)
Definition truthy (s : option string) : option string :=
  match s with
  | Some a => if String.eqb a "" then None else Some a
  | None => None
  end.

Definition proxyUrl (connectionUrl : string)
  (selectedProvider : ProviderOption) (agentId : option string) : string :=
  match truthy agentId with
  | Some a =>
      (connectionUrl ++ "/" ++ providerString (getProviderPath selectedProvider)
       ++ "/" ++ a)%string
  | None =>
      (connectionUrl ++ "/"
       ++ providerString (getProviderPath selectedProvider))%string
  end.

Definition claudeCodeCommand (connectionUrl : string)
  (agentId : option string) : string :=
  ("ANTHROPIC_BASE_URL=" ++ connectionUrl ++ "/anthropic"
   ++ match truthy agentId with
      | Some a => "/" ++ a
      | None => ""
      end
   ++ " claude")%string.

(** [UrlReplacementRow]: nothing for an empty [newUrl], else the crossed-out
    original URL and the new one. *)
Definition UrlReplacementRow (originalUrl newUrl : string)
  : option (string * string) :=
  if String.eqb newUrl "" then None else Some (originalUrl, newUrl).

(** What the component shows under the two selectors. *)
Inductive InstructionsView : Type :=
| RunCommand (command : string)
| ReplaceBaseUrl (label : string) (row : option (string * string)).

(** The render of [ProxyConnectionInstructions] in a given state. *)
Definition ProxyConnectionInstructions
  (providerDisplayNames : SupportedProvider -> string)
  (connectionUrl : string) (selectedProvider : ProviderOption)
  (agentId : option string) : InstructionsView :=
  match PROVIDER_CONFIG providerDisplayNames selectedProvider with
  | CommandEntry _ => RunCommand (claudeCodeCommand connectionUrl agentId)
  | UrlEntry label originalUrl =>
      ReplaceBaseUrl label
        (UrlReplacementRow originalUrl
           (proxyUrl connectionUrl selectedProvider agentId))
  end.

(** ** The scenarios of the specification *)

Example scenario_30 :
  matchByRules sampleRules (ctx 30 false) = Normal (Some "small-model").
Proof. reflexivity. Qed.

Example scenario_200 :
  matchByRules sampleRules (ctx 200 false) = Normal (Some "large-model").
Proof. reflexivity. Qed.

Example scenario_9000 :
  matchByRules sampleRules (ctx 9000 false) = Normal None.
Proof. reflexivity. Qed.

(** Pushing onto an inherited property throws. *)
Example scenario_constructor :
  matchByRules [lengthRule 500 "constructor"] (ctx 30 false)
  = Throw TypeError.
Proof. reflexivity. Qed.

Example arrayIndex_examples :
  arrayIndex "0" = Some 0%N /\ arrayIndex "42" = Some 42%N /\
  arrayIndex "007" = None /\ arrayIndex "gpt-4o" = None /\
  arrayIndex "4294967294" = Some 4294967294%N /\
  arrayIndex "4294967295" = None /\ arrayIndex "" = None.
Proof. repeat split; reflexivity. Qed.

(** ** Lists *)

Section ListFacts.
Context {A : Type}.

Lemma filter_true (l : list A) : filter (fun _ => true) l = l.
Proof. induction l as [|a l IH]; simpl; congruence. Qed.

Lemma filter_andb (f g : A -> bool) (l : list A) :
  filter f (filter g l) = filter (fun x => g x && f x) l.
Proof.
  induction l as [|a l IH]; simpl; trivial.
  destruct (g a); simpl; [destruct (f a)|]; simpl; congruence.
Qed.

Lemma filter_none (f : A -> bool) (l : list A) :
  (forall x, In x l -> f x = false) -> filter f l = [].
Proof.
  induction l as [|a l IH]; simpl; intros H; trivial.
  rewrite (H a (or_introl eq_refl)). apply IH. intros; apply H; now right.
Qed.

Lemma filter_all (f : A -> bool) (l : list A) :
  (forall x, In x l -> f x = true) -> filter f l = l.
Proof.
  induction l as [|a l IH]; simpl; intros H; trivial.
  rewrite (H a (or_introl eq_refl)). f_equal. apply IH.
  intros; apply H; now right.
Qed.
End ListFacts.

Lemma mem_In (x : string) (l : list string) : mem x l = true <-> In x l.
Proof.
  unfold mem. rewrite existsb_exists. split.
  - intros (y & Hy & E). apply String.eqb_eq in E. now subst.
  - intros H. exists x. split; trivial. apply String.eqb_refl.
Qed.

Lemma mem_not_In (x : string) (l : list string) :
  mem x l = false <-> ~ In x l.
Proof.
  rewrite <- mem_In. destruct (mem x l); split; congruence.
Qed.

Lemma mem_app (x : string) (l1 l2 : list string) :
  mem x (l1 ++ l2) = mem x l1 || mem x l2.
Proof. unfold mem. apply existsb_app. Qed.

Lemma firstSeen_In (x : string) (l : list string) :
  In x (firstSeen l) <-> In x l.
Proof.
  induction l as [|a l IH]; simpl; [tauto|].
  rewrite filter_In, IH, negb_true_iff, String.eqb_neq.
  destruct (string_dec a x); [subst|]; intuition congruence.
Qed.

Lemma firstSeen_NoDup (l : list string) : NoDup (firstSeen l).
Proof.
  induction l as [|a l IH]; simpl; constructor.
  - rewrite filter_In, negb_true_iff, String.eqb_neq. tauto.
  - now apply NoDup_filter.
Qed.

Lemma firstSeen_app (l1 l2 : list string) :
  firstSeen (l1 ++ l2)
  = firstSeen l1 ++ filter (fun y => negb (mem y l1)) (firstSeen l2).
Proof.
  induction l1 as [|a l1 IH]; simpl.
  - now rewrite filter_true.
  - f_equal. rewrite IH, filter_app, filter_andb. f_equal.
    apply filter_ext. intros y.
    rewrite negb_orb, andb_comm. reflexivity.
Qed.

(** ** The first loop builds [groupsOf] *)

Lemma enabledRules_app (l1 l2 : list OptimizationRule) :
  enabledRules (l1 ++ l2) = enabledRules l1 ++ enabledRules l2.
Proof. apply filter_app. Qed.

Lemma groupOf_app (m : string) (l1 l2 : list OptimizationRule) :
  groupOf m (l1 ++ l2) = groupOf m l1 ++ groupOf m l2.
Proof. unfold groupOf. now rewrite enabledRules_app, filter_app. Qed.

Lemma groupOf_In (m : string) (l : list OptimizationRule) (r : OptimizationRule) :
  In r (groupOf m l) <-> In r l /\ enabled r = true /\ targetModel r = m.
Proof.
  unfold groupOf, enabledRules, hasTarget.
  rewrite !filter_In, String.eqb_eq. tauto.
Qed.

Lemma groupOf_absent (m : string) (l : list OptimizationRule) :
  mem m (map targetModel (enabledRules l)) = false -> groupOf m l = [].
Proof.
  intros H. apply filter_none. intros r Hr. unfold hasTarget.
  apply String.eqb_neq. intros E. apply mem_not_In in H. apply H.
  rewrite <- E. now apply in_map.
Qed.

Lemma encounterOrder_In (m : string) (l : list OptimizationRule) :
  In m (encounterOrder l) <->
  exists r, In r l /\ enabled r = true /\ targetModel r = m.
Proof.
  unfold encounterOrder. rewrite firstSeen_In, in_map_iff.
  unfold enabledRules. split; intros (r & H1 & H2); exists r.
  - apply filter_In in H2. tauto.
  - split; [tauto|]. apply filter_In. tauto.
Qed.

Lemma mem_encounterOrder (m : string) (l : list OptimizationRule) :
  mem m (encounterOrder l) = mem m (map targetModel (enabledRules l)).
Proof.
  unfold encounterOrder.
  destruct (mem m (map _ _)) eqn:E.
  - apply mem_In, firstSeen_In, mem_In, E.
  - apply mem_not_In. rewrite firstSeen_In. now apply mem_not_In.
Qed.

Section AssocMaps.
Variable g : string -> list OptimizationRule.

Lemma getOwn_map (ks : list string) (m : string) :
  getOwn (map (fun k => (k, g k)) ks) m
  = if mem m ks then Some (g m) else None.
Proof.
  induction ks as [|k ks IH]; simpl; trivial.
  rewrite (String.eqb_sym m k).
  destruct (String.eqb k m) eqn:E; simpl; trivial.
  apply String.eqb_eq in E. now subst.
Qed.

Lemma pushOwn_map (ks : list string) (m : string) (r : OptimizationRule) :
  NoDup ks ->
  pushOwn (map (fun k => (k, g k)) ks) m r
  = map (fun k => (k, if String.eqb k m then g k ++ [r] else g k)) ks.
Proof.
  induction 1 as [|k ks Hk Hnd IH]; simpl; trivial.
  destruct (String.eqb k m) eqn:E.
  - f_equal. apply map_ext_in. intros k' Hk'.
    apply String.eqb_eq in E. subst m.
    assert (String.eqb k' k = false) as ->; trivial.
    apply String.eqb_neq. intros ->. contradiction.
  - now rewrite IH.
Qed.
End AssocMaps.

Lemma getOwn_groupsOf (l : list OptimizationRule) (m : string) :
  getOwn (groupsOf l) m
  = if mem m (map targetModel (enabledRules l))
    then Some (groupOf m l) else None.
Proof.
  unfold groupsOf.
  rewrite (getOwn_map (fun k => groupOf k l)), mem_encounterOrder.
  reflexivity.
Qed.

Lemma groupsOf_disabled (l : list OptimizationRule) (r : OptimizationRule) :
  enabled r = false -> groupsOf (l ++ [r]) = groupsOf l.
Proof.
  intros H.
  assert (E : enabledRules (l ++ [r]) = enabledRules l).
  { rewrite enabledRules_app. simpl. rewrite H. apply app_nil_r. }
  unfold groupsOf, encounterOrder, groupOf. now rewrite E.
Qed.

Lemma groupsOf_push (l : list OptimizationRule) (r : OptimizationRule) :
  enabled r = true ->
  mem (targetModel r) (map targetModel (enabledRules l)) = true ->
  groupsOf (l ++ [r]) = pushOwn (groupsOf l) (targetModel r) r.
Proof.
  intros En Hm. unfold groupsOf at 2.
  rewrite (pushOwn_map (fun k => groupOf k l))
    by apply firstSeen_NoDup.
  unfold groupsOf, encounterOrder.
  rewrite enabledRules_app, map_app, firstSeen_app. simpl. rewrite En.
  simpl. rewrite Hm. simpl. rewrite app_nil_r.
  apply map_ext. intros k. f_equal.
  rewrite groupOf_app. unfold groupOf at 2. simpl. rewrite En. simpl.
  unfold hasTarget. rewrite (String.eqb_sym k).
  destruct (String.eqb (targetModel r) k); trivial. apply app_nil_r.
Qed.

Lemma groupsOf_create (l : list OptimizationRule) (r : OptimizationRule) :
  enabled r = true ->
  mem (targetModel r) (map targetModel (enabledRules l)) = false ->
  groupsOf (l ++ [r]) = groupsOf l ++ [(targetModel r, [r])].
Proof.
  intros En Hm. unfold groupsOf, encounterOrder.
  rewrite enabledRules_app, map_app, firstSeen_app. simpl. rewrite En.
  simpl. rewrite Hm. simpl. rewrite map_app. simpl. f_equal.
  - apply map_ext_in. intros k Hk. f_equal.
    rewrite groupOf_app. unfold groupOf at 2. simpl. rewrite En. simpl.
    unfold hasTarget.
    assert (String.eqb (targetModel r) k = false) as ->.
    { apply String.eqb_neq. intros E. apply mem_not_In in Hm. apply Hm.
      rewrite E. now apply firstSeen_In. }
    apply app_nil_r.
  - rewrite groupOf_app, (groupOf_absent _ _ Hm). unfold groupOf. simpl.
    rewrite En. simpl. unfold hasTarget. now rewrite String.eqb_refl.
Qed.

Lemma targetsInherited_app (l1 l2 : list OptimizationRule) :
  targetsInherited (l1 ++ l2) = targetsInherited l1 || targetsInherited l2.
Proof.
  unfold targetsInherited. now rewrite enabledRules_app, existsb_app.
Qed.

Lemma targetsInherited_absent (l : list OptimizationRule) (m : string) :
  targetsInherited l = false -> inherited m = true ->
  mem m (map targetModel (enabledRules l)) = false.
Proof.
  intros H Hm. apply mem_not_In. rewrite in_map_iff. intros (r & E & Hr).
  unfold targetsInherited in H.
  assert (existsb (fun r => inherited (targetModel r)) (enabledRules l) = true).
  { apply existsb_exists. exists r. split; trivial. now rewrite E. }
  congruence.
Qed.

(** The first loop, resumed after a prefix [p] that did not throw. *)
Lemma groupRules_from (rest p : list OptimizationRule) :
  targetsInherited p = false ->
  groupRules (groupsOf p) rest
  = if targetsInherited rest then Throw TypeError
    else Normal (groupsOf (p ++ rest)).
Proof.
  revert p. induction rest as [|r rest IH]; intros p Hp; simpl.
  - now rewrite app_nil_r.
  - unfold groupStep.
    replace (p ++ r :: rest) with ((p ++ [r]) ++ rest)
      by (rewrite <- app_assoc; reflexivity).
    unfold targetsInherited at 1. simpl.
    destruct (enabled r) eqn:En; simpl.
    + rewrite getOwn_groupsOf.
      destruct (inherited (targetModel r)) eqn:Inh; simpl.
      * now rewrite (targetsInherited_absent _ _ Hp Inh).
      * assert (Hp' : targetsInherited (p ++ [r]) = false).
        { rewrite targetsInherited_app, Hp. unfold targetsInherited. simpl.
          rewrite En. simpl. now rewrite Inh. }
        fold (targetsInherited rest).
        destruct (mem (targetModel r) _) eqn:Hm; simpl.
        -- rewrite <- (groupsOf_push _ _ En Hm). now apply IH.
        -- rewrite <- (groupsOf_create _ _ En Hm). now apply IH.
    + rewrite <- (groupsOf_disabled p r En). apply IH.
      rewrite targetsInherited_app, Hp. unfold targetsInherited. simpl.
      now rewrite En.
Qed.

Lemma groupRules_spec (rules : list OptimizationRule) :
  groupRules [] rules
  = if targetsInherited rules then Throw TypeError
    else Normal (groupsOf rules).
Proof. apply (groupRules_from rules []). reflexivity. Qed.

(** The whole method in closed form. *)
Lemma matchByRules_spec (rules : list OptimizationRule)
  (context : RequestContext.t) :
  matchByRules rules context
  = if targetsInherited rules then Throw TypeError
    else Normal (firstMatch context (entries (groupsOf rules))).
Proof.
  unfold matchByRules. rewrite groupRules_spec.
  now destruct (targetsInherited rules).
Qed.

(** ** [Object.entries] *)

Lemma insertIndexed_In (e x : N * (string * list OptimizationRule))
  (l : list (N * (string * list OptimizationRule))) :
  In x (insertIndexed e l) <-> x = e \/ In x l.
Proof.
  induction l as [|h t IH]; simpl.
  - intuition congruence.
  - destruct (fst e <=? fst h)%N; simpl; rewrite ?IH; intuition congruence.
Qed.

Lemma indexedEntries_In (o : Groups) (n : N)
  (e : string * list OptimizationRule) :
  In (n, e) (indexedEntries o) <-> In e o /\ arrayIndex (fst e) = Some n.
Proof.
  induction o as [|[k v] o IH]; simpl; [tauto|].
  destruct (arrayIndex k) eqn:E.
  - rewrite insertIndexed_In, IH. split.
    + intros [H|H]; [inversion H; subst; simpl; auto | tauto].
    + intros [[H|H] H']; [subst e; simpl in H'; left; congruence | tauto].
  - rewrite IH. split; [tauto|].
    intros [[H|H] H']; [subst e; simpl in H'; congruence | tauto].
Qed.

(** [Object.entries] lists exactly the own properties. *)
Lemma entries_In (o : Groups) (e : string * list OptimizationRule) :
  In e (entries o) <-> In e o.
Proof.
  unfold entries, isArrayIndex.
  rewrite in_app_iff, in_map_iff, filter_In. split.
  - intros [([n e'] & E & H) | H]; [|tauto].
    simpl in E. subst e'. now apply indexedEntries_In in H.
  - intros H. destruct (arrayIndex (fst e)) as [n|] eqn:E.
    + left. exists (n, e). split; trivial. now apply indexedEntries_In.
    + right. auto.
Qed.

(** Without array-index keys the creation order is kept. *)
Lemma entries_plain (o : Groups) :
  (forall e, In e o -> isArrayIndex (fst e) = false) -> entries o = o.
Proof.
  intros H. unfold entries.
  assert (E : indexedEntries o = []).
  { induction o as [|[k v] o IH]; simpl; trivial.
    pose proof (H (k, v) (or_introl eq_refl)) as Hk.
    unfold isArrayIndex in Hk. simpl in Hk.
    destruct (arrayIndex k); [discriminate|].
    apply IH. intros; apply H; now right. }
  rewrite E. simpl. apply filter_all. intros e He.
  now rewrite (H e He).
Qed.

Lemma insertIndexed_sameVerdicts (context : RequestContext.t)
  (e1 e2 : N * (string * list OptimizationRule))
  (l1 l2 : list (N * (string * list OptimizationRule))) :
  fst e1 = fst e2 -> fst (snd e1) = fst (snd e2) ->
  groupMatches context (snd (snd e1)) = groupMatches context (snd (snd e2)) ->
  sameIndexedVerdicts context l1 l2 ->
  sameIndexedVerdicts context (insertIndexed e1 l1) (insertIndexed e2 l2).
Proof.
  intros E1 E2 E3 H. induction H as [|h1 h2 t1 t2 (Hh & Hh') Ht IH]; simpl.
  - repeat constructor; trivial.
  - rewrite <- E1, <- Hh.
    destruct (fst e1 <=? fst h1)%N.
    + constructor; [auto|]. constructor; auto.
    + constructor; auto.
Qed.

Lemma indexedEntries_sameVerdicts (context : RequestContext.t)
  (o1 o2 : Groups) :
  sameVerdicts context o1 o2 ->
  sameIndexedVerdicts context (indexedEntries o1) (indexedEntries o2).
Proof.
  induction 1 as [|[k1 v1] [k2 v2] t1 t2 (Hk & Hv) Ht IH]; simpl.
  - constructor.
  - simpl in Hk, Hv. subst k2. destruct (arrayIndex k1); trivial.
    now apply insertIndexed_sameVerdicts.
Qed.

Lemma entries_sameVerdicts (context : RequestContext.t) (o1 o2 : Groups) :
  sameVerdicts context o1 o2 ->
  sameVerdicts context (entries o1) (entries o2).
Proof.
  intros H. unfold entries. apply Forall2_app.
  - apply indexedEntries_sameVerdicts in H.
    induction H as [|h1 h2 t1 t2 (_ & Hk & Hv) Ht IH]; simpl;
      constructor; auto.
  - induction H as [|[k1 v1] [k2 v2] t1 t2 (Hk & Hv) Ht IH]; simpl.
    + constructor.
    + simpl in Hk. subst k2.
      destruct (isArrayIndex k1); simpl; trivial. constructor; auto.
Qed.

Lemma firstMatch_sameVerdicts (context : RequestContext.t) (es1 es2 : Groups) :
  sameVerdicts context es1 es2 ->
  firstMatch context es1 = firstMatch context es2.
Proof.
  induction 1 as [|[k1 v1] [k2 v2] t1 t2 (Hk & Hv) Ht IH]; simpl; trivial.
  simpl in Hk, Hv. subst k2. rewrite Hv, IH. reflexivity.
Qed.

Lemma firstMatch_Some (context : RequestContext.t) (es : Groups) (m : string) :
  firstMatch context es = Some m ->
  exists v, In (m, v) es /\ groupMatches context v = true.
Proof.
  induction es as [|[k v] es IH]; simpl; [discriminate|].
  destruct (groupMatches context v) eqn:E.
  - intros [= <-]. exists v. auto.
  - intros H. destruct (IH H) as (v' & H1 & H2). exists v'. auto.
Qed.

Lemma firstMatch_map (context : RequestContext.t)
  (g : string -> list OptimizationRule) (ks : list string) :
  firstMatch context (map (fun k => (k, g k)) ks)
  = find (fun k => groupMatches context (g k)) ks.
Proof.
  induction ks as [|k ks IH]; simpl; trivial. now rewrite IH.
Qed.

(** ** The inner loop is a conjunction *)

Lemma groupMatches_forallb (context : RequestContext.t)
  (l : list OptimizationRule) :
  groupMatches context l = forallb (ruleMatches context) l.
Proof.
  induction l as [|r l IH]; simpl; trivial.
  unfold ruleMatches at 1. destruct (ruleFails context r); simpl; trivial.
Qed.

Lemma groupMatches_app (context : RequestContext.t)
  (l1 l2 : list OptimizationRule) :
  groupMatches context (l1 ++ l2)
  = groupMatches context l1 && groupMatches context l2.
Proof. rewrite !groupMatches_forallb. apply forallb_app. Qed.

Lemma groupMatches_Permutation (context : RequestContext.t)
  (l1 l2 : list OptimizationRule) :
  Permutation l1 l2 -> groupMatches context l1 = groupMatches context l2.
Proof.
  rewrite !groupMatches_forallb.
  induction 1; simpl; try congruence.
  now rewrite !andb_assoc, (andb_comm (ruleMatches context y)).
Qed.

(** ** The outcome depends on the encounter order and the verdicts only *)

Lemma targetsInherited_encounterOrder (rules : list OptimizationRule) :
  targetsInherited rules = existsb inherited (encounterOrder rules).
Proof.
  apply eq_true_iff_eq. unfold targetsInherited.
  rewrite !existsb_exists. split.
  - intros (r & Hr & Hi). exists (targetModel r). split; trivial.
    apply firstSeen_In, in_map, Hr.
  - intros (m & Hm & Hi). apply firstSeen_In, in_map_iff in Hm.
    destruct Hm as (r & <- & Hr). eauto.
Qed.

Lemma matchByRules_ext (rules1 rules2 : list OptimizationRule)
  (context : RequestContext.t) :
  encounterOrder rules1 = encounterOrder rules2 ->
  (forall m, groupMatches context (groupOf m rules1)
             = groupMatches context (groupOf m rules2)) ->
  matchByRules rules1 context = matchByRules rules2 context.
Proof.
  intros Ho Hv. rewrite !matchByRules_spec, !targetsInherited_encounterOrder, Ho.
  destruct (existsb inherited (encounterOrder rules2)); trivial.
  f_equal. apply firstMatch_sameVerdicts, entries_sameVerdicts.
  unfold groupsOf. rewrite Ho. clear Ho.
  induction (encounterOrder rules2) as [|k ks IH]; simpl; constructor.
  - simpl. auto.
  - exact IH.
Qed.

(** A returned model is a key of the object, and its group matched. *)
Lemma matchByRules_Some (rules : list OptimizationRule)
  (context : RequestContext.t) (m : string) :
  matchByRules rules context = Normal (Some m) ->
  In m (encounterOrder rules)
  /\ groupMatches context (groupOf m rules) = true.
Proof.
  rewrite matchByRules_spec. destruct (targetsInherited rules); [discriminate|].
  intros [= H]. apply firstMatch_Some in H. destruct H as (v & Hin & Hv).
  apply (proj1 (entries_In _ _)) in Hin. unfold groupsOf in Hin.
  apply in_map_iff in Hin. destruct Hin as (k & [= -> <-] & Hk). auto.
Qed.

Lemma groupsOf_plain (rules : list OptimizationRule) :
  targetsArrayIndex rules = false -> entries (groupsOf rules) = groupsOf rules.
Proof.
  intros H. apply entries_plain. intros [k v] Hin. simpl.
  unfold groupsOf in Hin. apply in_map_iff in Hin.
  destruct Hin as (k' & [= -> <-] & Hk).
  apply firstSeen_In, in_map_iff in Hk. destruct Hk as (r & <- & Hr).
  destruct (isArrayIndex (targetModel r)) eqn:E; trivial.
  unfold targetsArrayIndex in H.
  assert (existsb (fun r => isArrayIndex (targetModel r)) (enabledRules rules)
          = true) by (apply existsb_exists; eauto).
  congruence.
Qed.

(** With ordinary model names the method returns the first model, in
    encounter order, whose group matches. *)
Lemma matchByRules_plain (rules : list OptimizationRule)
  (context : RequestContext.t) :
  targetsInherited rules = false -> targetsArrayIndex rules = false ->
  matchByRules rules context
  = Normal (find (fun m => groupMatches context (groupOf m rules))
                 (encounterOrder rules)).
Proof.
  intros Hi Ha. rewrite matchByRules_spec, Hi, (groupsOf_plain _ Ha).
  unfold groupsOf. now rewrite (firstMatch_map context (fun m => groupOf m rules)).
Qed.

(** ** Single rules *)

Lemma ruleMatches_content_length (context : RequestContext.t)
  (r : OptimizationRule) :
  ruleType r = "content_length" ->
  ruleMatches context r
  = negb (js_gt (RequestContext.tokenCount context)
                (Conditions.maxLength (conditions r))).
Proof. intros H. unfold ruleMatches, ruleFails. now rewrite H. Qed.

Lemma ruleMatches_tool_presence (context : RequestContext.t)
  (r : OptimizationRule) :
  ruleType r = "tool_presence" ->
  ruleMatches context r
  = negb (js_strict_neq (RequestContext.hasTools context)
                        (Conditions.hasTools (conditions r))).
Proof. intros H. unfold ruleMatches, ruleFails. now rewrite H. Qed.

Lemma ruleMatches_unrecognized (context : RequestContext.t)
  (r : OptimizationRule) :
  recognized (ruleType r) = false -> ruleMatches context r = true.
Proof.
  unfold recognized, ruleMatches, ruleFails. intros H.
  apply orb_false_iff in H. destruct H as [-> ->]. reflexivity.
Qed.

Lemma wellTyped_conditionHolds (context : RequestContext.t)
  (r : OptimizationRule) :
  wellTyped r = true ->
  (ruleMatches context r = true <-> conditionHolds context r).
Proof.
  unfold wellTyped, conditionHolds, ruleMatches, ruleFails.
  destruct (String.eqb (ruleType r) "content_length") eqn:E1.
  - apply String.eqb_eq in E1.
    destruct (Conditions.maxLength (conditions r)) as [n|]; [|discriminate].
    intros _. simpl. rewrite negb_true_iff, Z.gtb_ltb, Z.ltb_ge. split.
    + intros H. left. eauto.
    + intros [(_ & n' & [= <-] & H) | (E2 & _)]; trivial.
      rewrite E1 in E2. discriminate.
  - destruct (String.eqb (ruleType r) "tool_presence") eqn:E2; [|discriminate].
    apply String.eqb_eq in E2. apply String.eqb_neq in E1.
    destruct (Conditions.hasTools (conditions r)) as [b|]; [|discriminate].
    intros _. simpl. rewrite negb_involutive, Bool.eqb_true_iff. split.
    + intros ->. right. auto.
    + intros [(E & _) | (_ & [= <-])]; [contradiction | trivial].
Qed.

(** *** C5 *)

(** C5.  A [content_length] rule whose payload carries [maxLength] matches
    exactly when the context's token count is at most [maxLength]; the
    bound is inclusive. *)
Theorem content_length_inclusive_bound (context : RequestContext.t)
  (r : OptimizationRule) (n : Z) :
  ruleType r = "content_length" ->
  Conditions.maxLength (conditions r) = Some n ->
  (ruleMatches context r = true <->
   (RequestContext.tokenCount context <= n)%Z).
Proof.
  intros Ht Hc. rewrite (ruleMatches_content_length _ _ Ht), Hc. simpl.
  rewrite negb_true_iff, Z.gtb_ltb, Z.ltb_ge. reflexivity.
Qed.

(** With [maxLength] 100, a token count of 100 matches and 101 does not,
    also through the whole method. *)
Lemma content_length_boundary_100 :
  (ruleMatches (ctx 100 false) (lengthRule 100 "small-model") = true /\
   matchByRules [lengthRule 100 "small-model"] (ctx 100 false)
   = Normal (Some "small-model"))
  /\
  (ruleMatches (ctx 101 false) (lengthRule 100 "small-model") <> true /\
   matchByRules [lengthRule 100 "small-model"] (ctx 101 false)
   = Normal None).
Proof.
  split; split.
  - apply (content_length_inclusive_bound (ctx 100 false)
             (lengthRule 100 "small-model") 100 eq_refl eq_refl).
    discriminate.
  - reflexivity.
  - intros H.
    apply (content_length_inclusive_bound (ctx 101 false)
             (lengthRule 100 "small-model") 100 eq_refl eq_refl) in H.
    apply H. reflexivity.
  - reflexivity.
Defined.

(** *** C6 *)

(** C6.  A [tool_presence] rule whose payload carries [hasTools] matches
    exactly when the context's [hasTools] equals the rule's. *)
Theorem tool_presence_equality (context : RequestContext.t)
  (r : OptimizationRule) (b : bool) :
  ruleType r = "tool_presence" ->
  Conditions.hasTools (conditions r) = Some b ->
  (ruleMatches context r = true <-> RequestContext.hasTools context = b).
Proof.
  intros Ht Hc. rewrite (ruleMatches_tool_presence _ _ Ht), Hc. simpl.
  rewrite negb_involutive. apply Bool.eqb_true_iff.
Qed.

Lemma tool_presence_examples :
  ruleMatches (ctx 50 true) (toolsRule true "small-model") = true /\
  ruleMatches (ctx 50 false) (toolsRule true "small-model") <> true.
Proof.
  split.
  - apply (tool_presence_equality (ctx 50 true)
             (toolsRule true "small-model") true eq_refl eq_refl).
    reflexivity.
  - intros H.
    apply (tool_presence_equality (ctx 50 false)
             (toolsRule true "small-model") true eq_refl eq_refl) in H.
    discriminate H.
Defined.

(** ** Unrecognized rule types and mismatched payloads *)

(** The only way the method ends abnormally is the [TypeError] of pushing
    onto an inherited property. *)
Lemma matchByRules_returns (rules : list OptimizationRule)
  (context : RequestContext.t) :
  targetsInherited rules = false ->
  exists res, matchByRules rules context = Normal res.
Proof. intros H. rewrite matchByRules_spec, H. eauto. Qed.

(** *** C1 *)

(** C1 does not hold as stated: an enabled rule of an unknown type makes the
    method return the rule's model, not fail. *)
Lemma unknown_rule_type_silently_matches :
  recognized (ruleType unknownRule) = false /\
  enabled unknownRule = true /\
  matchByRules [unknownRule] (ctx 9000 false) = Normal (Some "small-model").
Proof. repeat split. Qed.

(** C1, amended.  A rule whose [ruleType] is neither [content_length] nor
    [tool_presence] is passed over by the innermost loop: it matches every
    context and its group's verdict is that of the group without it.  On a
    list that holds it the method returns normally, provided no enabled rule
    of the list targets a name inherited from [Object.prototype] (the one
    case in which the method throws, whatever the rule types). *)
Theorem unrecognized_rule_is_passed_over (context : RequestContext.t)
  (r : OptimizationRule) :
  recognized (ruleType r) = false ->
  ruleMatches context r = true
  /\ (forall l1 l2,
        groupMatches context (l1 ++ r :: l2) = groupMatches context (l1 ++ l2))
  /\ (forall rules1 rules2,
        targetsInherited (rules1 ++ r :: rules2) = false ->
        exists res,
          matchByRules (rules1 ++ r :: rules2) context = Normal res).
Proof.
  intros H. pose proof (ruleMatches_unrecognized context r H) as Hm.
  split; [exact Hm|]. split.
  - intros l1 l2. rewrite !groupMatches_app. simpl.
    unfold ruleMatches in Hm. apply negb_true_iff in Hm. now rewrite Hm.
  - intros rules1 rules2 Hi. now apply matchByRules_returns.
Qed.

Lemma unrecognized_rule_is_passed_over_witness :
  ruleMatches (ctx 9000 false) unknownRule = true
  /\ groupMatches (ctx 30 false)
       ([lengthRule 50 "small-model"] ++ unknownRule :: [])
     = groupMatches (ctx 30 false) ([lengthRule 50 "small-model"] ++ [])
  /\ exists res,
       matchByRules ([] ++ unknownRule :: sampleRules) (ctx 9000 false)
       = Normal res.
Proof.
  pose proof (unrecognized_rule_is_passed_over (ctx 9000 false) unknownRule
                eq_refl) as (H1 & _ & H3).
  pose proof (unrecognized_rule_is_passed_over (ctx 30 false) unknownRule
                eq_refl) as (_ & H2 & _).
  split; [exact H1|]. split.
  - apply H2.
  - apply (H3 [] sampleRules). reflexivity.
Defined.

(** *** C2 *)

(** C2 does not hold as stated: a [content_length] rule with the payload
    [{hasTools: true}] makes the method return the rule's model for any
    token count, and the mirrored [tool_presence] rule makes its group
    fail without any error. *)
Lemma malformed_conditions_raise_nothing :
  wellTyped malformedRule = false /\
  enabled malformedRule = true /\
  matchByRules [malformedRule] (ctx 9000 false) = Normal (Some "small-model")
  /\ wellTyped malformedToolsRule = false /\
  matchByRules [malformedToolsRule] (ctx 10 true) = Normal None.
Proof. repeat split. Qed.

(** C2, amended.  The method does not inspect the shape of [conditions].
    A [content_length] rule whose payload lacks [maxLength] matches every
    context and a [tool_presence] rule whose payload lacks [hasTools]
    matches none.  In both cases the method returns normally on a list that
    holds the rule, provided no enabled rule of the list targets a name
    inherited from [Object.prototype] (the one case in which the method
    throws, whatever the payloads). *)
Theorem mismatched_payload_is_not_reported (context : RequestContext.t)
  (r : OptimizationRule) :
  wellTyped r = false ->
  (ruleType r = "content_length" -> ruleMatches context r = true)
  /\ (ruleType r = "tool_presence" -> ruleMatches context r = false)
  /\ (forall rules1 rules2,
        targetsInherited (rules1 ++ r :: rules2) = false ->
        exists res,
          matchByRules (rules1 ++ r :: rules2) context = Normal res).
Proof.
  intros Hw. split; [|split].
  - intros Ht. rewrite (ruleMatches_content_length _ _ Ht).
    unfold wellTyped in Hw. rewrite Ht in Hw. simpl in Hw.
    now destruct (Conditions.maxLength (conditions r)).
  - intros Ht. rewrite (ruleMatches_tool_presence _ _ Ht).
    unfold wellTyped in Hw. rewrite Ht in Hw. simpl in Hw.
    now destruct (Conditions.hasTools (conditions r)).
  - intros rules1 rules2 Hi. now apply matchByRules_returns.
Qed.

Lemma mismatched_payload_is_not_reported_witness :
  ruleMatches (ctx 9000 false) malformedRule = true
  /\ ruleMatches (ctx 10 true) malformedToolsRule = false
  /\ exists res,
       matchByRules ([] ++ malformedRule :: sampleRules) (ctx 9000 false)
       = Normal res.
Proof.
  pose proof (mismatched_payload_is_not_reported (ctx 9000 false)
                malformedRule eq_refl) as (H1 & _ & H3).
  pose proof (mismatched_payload_is_not_reported (ctx 10 true)
                malformedToolsRule eq_refl) as (_ & H2 & _).
  split; [exact (H1 eq_refl)|]. split; [exact (H2 eq_refl)|].
  apply (H3 [] sampleRules). reflexivity.
Defined.

(** ** Groups *)

Lemma visitedRules_break (context : RequestContext.t)
  (l1 l2 : list OptimizationRule) (r : OptimizationRule) :
  groupMatches context l1 = true -> ruleFails context r = true ->
  visitedRules context (l1 ++ r :: l2) = l1 ++ [r].
Proof.
  intros H Hr. induction l1 as [|a l1 IH]; simpl in *.
  - now rewrite Hr.
  - destruct (ruleFails context a); [discriminate|]. now rewrite IH.
Qed.

(** *** C4 *)

(** C4.  A model is returned only if every enabled rule that targets it
    matches the context; for a rule of the right shape this is the
    specification's condition.  The verdict of a group is the conjunction
    over its rules, and the loop over a group stops at the first failing
    rule: the rules after it are not visited.  In particular the group of
    [content_length{maxLength:100}] and [tool_presence{hasTools:true}]
    fails on 50 tokens without tools. *)
Theorem group_is_conjunction :
  (forall rules context m r,
      matchByRules rules context = Normal (Some m) ->
      In r rules -> enabled r = true -> targetModel r = m ->
      ruleMatches context r = true
      /\ (wellTyped r = true -> conditionHolds context r))
  /\ (forall context l,
        groupMatches context l = forallb (ruleMatches context) l)
  /\ (forall context l1 r l2,
        groupMatches context l1 = true -> ruleFails context r = true ->
        groupMatches context (l1 ++ r :: l2) = false
        /\ visitedRules context (l1 ++ r :: l2) = l1 ++ [r])
  /\ (ruleMatches (ctx 50 false) (lengthRule 100 "small-model") = true
      /\ ruleMatches (ctx 50 false) (toolsRule true "small-model") = false
      /\ matchByRules [lengthRule 100 "small-model";
                       toolsRule true "small-model"] (ctx 50 false)
         = Normal None).
Proof.
  split; [|split; [|split]].
  - intros rules context m r H Hin En Ht.
    apply matchByRules_Some in H. destruct H as (_ & H).
    rewrite groupMatches_forallb, forallb_forall in H.
    assert (Hm : ruleMatches context r = true).
    { apply H. apply groupOf_In. auto. }
    split; trivial. intros Hw. now apply wellTyped_conditionHolds.
  - apply groupMatches_forallb.
  - intros context l1 r l2 H Hr. split.
    + rewrite groupMatches_app, H. simpl. now rewrite Hr.
    + now apply visitedRules_break.
  - repeat split.
Qed.

Lemma group_is_conjunction_witness :
  (ruleMatches (ctx 200 false) (lengthRule 500 "large-model") = true
   /\ conditionHolds (ctx 200 false) (lengthRule 500 "large-model"))
  /\ (groupMatches (ctx 50 false)
        ([lengthRule 100 "m"] ++ toolsRule true "m" :: [lengthRule 10 "m"])
      = false
      /\ visitedRules (ctx 50 false)
           ([lengthRule 100 "m"] ++ toolsRule true "m" :: [lengthRule 10 "m"])
         = [lengthRule 100 "m"] ++ [toolsRule true "m"]).
Proof.
  destruct group_is_conjunction as (H1 & _ & H3 & _). split.
  - destruct (H1 sampleRules (ctx 200 false) "large-model"
                (lengthRule 500 "large-model") eq_refl
                (or_intror (or_introl eq_refl)) eq_refl eq_refl) as (Ha & Hb).
    split; [exact Ha | exact (Hb eq_refl)].
  - apply (H3 (ctx 50 false) [lengthRule 100 "m"] (toolsRule true "m")
              [lengthRule 10 "m"]); reflexivity.
Defined.

(** ** Disabled rules *)

Lemma groupRules_enabledRules (rules : list OptimizationRule) (o : Groups) :
  groupRules o rules = groupRules o (enabledRules rules).
Proof.
  revert o. induction rules as [|r rules IH]; intros o; simpl; trivial.
  destruct (enabled r) eqn:En; simpl.
  - unfold groupStep. rewrite En. simpl.
    destruct (getOwn o (targetModel r)); simpl; [apply IH|].
    destruct (inherited (targetModel r)); simpl; [trivial | apply IH].
  - unfold groupStep. rewrite En. simpl. apply IH.
Qed.

(** *** C7 *)

(** C7.  Disabled rules do not affect the outcome: the method gives the
    same result on a list and on its sublist of enabled rules.  On the
    empty list, and on a list whose rules are all disabled, it returns
    [null]. *)
Theorem disabled_rules_are_ignored :
  (forall rules context,
      matchByRules rules context = matchByRules (enabledRules rules) context)
  /\ (forall context, matchByRules [] context = Normal None)
  /\ (forall rules context,
        (forall r, In r rules -> enabled r = false) ->
        matchByRules rules context = Normal None).
Proof.
  assert (H : forall rules context,
             matchByRules rules context
             = matchByRules (enabledRules rules) context).
  { intros rules context. unfold matchByRules.
    now rewrite groupRules_enabledRules. }
  split; [exact H|]. split; [reflexivity|].
  intros rules context Hd. rewrite H.
  unfold enabledRules. now rewrite (filter_none enabled rules Hd).
Qed.

Lemma disabled_rules_are_ignored_witness :
  matchByRules [sampleRule "content_length" (ContentLengthConditions 50)
                  "small-model" false;
                sampleRule "tool_presence" (ToolPresenceConditions true)
                  "large-model" false] (ctx 30 true)
  = Normal None.
Proof.
  apply (proj2 (proj2 disabled_rules_are_ignored)).
  intros r [<- | [<- | []]]; reflexivity.
Defined.

(** ** Range *)

(** *** C9 *)

(** C9.  Whatever the rules and the context, the method returns [null] or
    the [targetModel] of an enabled input rule; when it returns nothing,
    having thrown, an enabled rule targets a name inherited from
    [Object.prototype]. *)
Theorem result_is_an_enabled_target (rules : list OptimizationRule)
  (context : RequestContext.t) :
  match matchByRules rules context with
  | Normal None => True
  | Normal (Some m) =>
      exists r, In r rules /\ enabled r = true /\ targetModel r = m
  | Throw _ =>
      exists r, In r rules /\ enabled r = true
                /\ inherited (targetModel r) = true
  end.
Proof.
  destruct (matchByRules rules context) as [[m|]|e] eqn:E; trivial.
  - apply matchByRules_Some in E. now apply encounterOrder_In.
  - rewrite matchByRules_spec in E.
    destruct (targetsInherited rules) eqn:Hi; [|discriminate].
    unfold targetsInherited in Hi. apply existsb_exists in Hi.
    destruct Hi as (r & Hr & Hi). unfold enabledRules in Hr.
    apply filter_In in Hr. exists r. tauto.
Qed.

(** ** Order of the groups *)

Lemma find_app_split {A : Type} (f : A -> bool) (l1 l2 : list A) :
  find f (l1 ++ l2)
  = match find f l1 with Some x => Some x | None => find f l2 end.
Proof.
  induction l1 as [|a l1 IH]; simpl; trivial. now destruct (f a).
Qed.

(** Scanning the encounter order of [pre ++ a :: post] for a matching
    model stops at the model of [a] or earlier. *)
Lemma find_encounterOrder (f : string -> bool)
  (pre post : list OptimizationRule) (a : OptimizationRule) :
  enabled a = true -> f (targetModel a) = true ->
  exists C,
    find f (encounterOrder (pre ++ a :: post)) = Some C /\ f C = true /\
    (C = targetModel a \/
     exists r, In r pre /\ enabled r = true /\ targetModel r = C).
Proof.
  intros En Hf. unfold encounterOrder.
  rewrite enabledRules_app, map_app, firstSeen_app, find_app_split.
  destruct (find f (firstSeen (map targetModel (enabledRules pre))))
    as [C|] eqn:E.
  - apply find_some in E. destruct E as (Hin & HC).
    exists C. repeat split; trivial. right.
    now apply (proj1 (encounterOrder_In C pre)).
  - simpl. rewrite En. simpl.
    destruct (mem (targetModel a) (map targetModel (enabledRules pre)))
      eqn:Hm; simpl.
    + apply mem_In, firstSeen_In in Hm.
      rewrite (find_none _ _ E _ Hm) in Hf. discriminate.
    + rewrite Hf. exists (targetModel a). auto.
Qed.

(** *** C3 *)

(** C3 does not hold as stated: with the model names ["2"] and ["1"], both
    groups matching and ["2"] met first, the method returns ["1"], for
    [Object.entries] lists array-index keys in ascending numeric order. *)
Lemma array_index_models_are_visited_in_numeric_order :
  encounterOrder indexRules = ["2"; "1"] /\
  fullyMatches indexRules (ctx 30 false) "2" = true /\
  fullyMatches indexRules (ctx 30 false) "1" = true /\
  matchByRules indexRules (ctx 30 false) = Normal (Some "1").
Proof. repeat split. Qed.

(** C3, amended.  Let no enabled rule target an array index or a name
    inherited from [Object.prototype].  If an enabled rule [a] of a fully
    matching model comes before every enabled rule of model [B], the method
    returns a model other than [B], whether or not [B] matches; and if no
    model met before [a] fully matches, it returns the model of [a]. *)
Theorem first_matching_group_wins (rules pre post : list OptimizationRule)
  (a : OptimizationRule) (B : string) (context : RequestContext.t) :
  targetsInherited rules = false ->
  targetsArrayIndex rules = false ->
  rules = pre ++ a :: post ->
  enabled a = true ->
  fullyMatches rules context (targetModel a) = true ->
  (forall r, In r (pre ++ [a]) -> enabled r = true -> targetModel r <> B) ->
  (exists C, matchByRules rules context = Normal (Some C) /\ C <> B)
  /\ ((forall r, In r pre -> enabled r = true ->
                 fullyMatches rules context (targetModel r) = false) ->
      matchByRules rules context = Normal (Some (targetModel a))).
Proof.
  intros Hi Ha Hr En HA HB.
  rewrite (matchByRules_plain rules context Hi Ha).
  unfold fullyMatches in HA. apply andb_true_iff in HA.
  destruct HA as (_ & HA).
  destruct (find_encounterOrder
              (fun m => groupMatches context (groupOf m rules))
              pre post a En HA) as (C & HC & HfC & Hwhere).
  rewrite <- Hr in HC. rewrite HC. split.
  - exists C. split; trivial.
    destruct Hwhere as [-> | (r & Hin & Hen & <-)].
    + apply HB; trivial. apply in_or_app. right. now left.
    + apply HB; trivial. apply in_or_app. now left.
  - intros Hpre. destruct Hwhere as [-> | (r & Hin & Hen & <-)]; trivial.
    specialize (Hpre r Hin Hen). unfold fullyMatches in Hpre.
    rewrite HfC, andb_true_r in Hpre. apply mem_not_In in Hpre.
    exfalso. apply Hpre. apply in_map. unfold enabledRules.
    apply filter_In. split; trivial. rewrite Hr. apply in_or_app. now left.
Qed.

Lemma first_matching_group_wins_witness :
  (exists C,
      matchByRules sampleRules (ctx 30 false) = Normal (Some C)
      /\ C <> "large-model")
  /\ matchByRules sampleRules (ctx 30 false) = Normal (Some "small-model").
Proof.
  destruct (first_matching_group_wins sampleRules []
              [lengthRule 500 "large-model"] (lengthRule 50 "small-model")
              "large-model" (ctx 30 false)
              eq_refl eq_refl eq_refl eq_refl eq_refl) as (H1 & H2).
  - intros r [<- | []] _. discriminate.
  - split; [exact H1|]. apply H2. intros r [].
Defined.

(** ** Reordering and duplicates *)

(** *** C8 *)

(** C8.  Two rule lists that meet the target models of their enabled rules
    in the same order, and whose groups hold the same rules up to order,
    give the same outcome.  This covers every reordering of rules inside
    their groups that keeps each group's first position. *)
Theorem grouping_is_stable (rules1 rules2 : list OptimizationRule)
  (context : RequestContext.t) :
  encounterOrder rules1 = encounterOrder rules2 ->
  (forall m, Permutation (groupOf m rules1) (groupOf m rules2)) ->
  matchByRules rules1 context = matchByRules rules2 context.
Proof.
  intros Ho Hp. apply matchByRules_ext; trivial.
  intros m. apply groupMatches_Permutation, Hp.
Qed.

Lemma grouping_is_stable_witness :
  matchByRules [lengthRule 100 "a"; lengthRule 500 "b"; toolsRule false "a"]
               (ctx 200 false)
  = matchByRules [toolsRule false "a"; lengthRule 500 "b"; lengthRule 100 "a"]
                 (ctx 200 false).
Proof.
  apply grouping_is_stable.
  - reflexivity.
  - intros m. unfold groupOf, enabledRules, hasTarget.
    cbn [filter enabled targetModel lengthRule toolsRule sampleRule].
    destruct (String.eqb "a" m) eqn:Ea.
    + apply String.eqb_eq in Ea. subst m. apply perm_swap.
    + apply Permutation_refl.
Defined.

Lemma firstSeen_dup (X Y : list string) (m : string) :
  mem m X = true -> firstSeen (X ++ m :: Y) = firstSeen (X ++ Y).
Proof.
  intros H. rewrite !firstSeen_app. f_equal. simpl. rewrite H. simpl.
  rewrite filter_andb. apply filter_ext_in. intros y _.
  destruct (String.eqb y m) eqn:E; simpl; trivial.
  apply String.eqb_eq in E. subst y. now rewrite H.
Qed.

(** *** C10 *)

(** C10.  Inserting a second copy of a rule anywhere after an occurrence of
    that rule does not change the outcome. *)
Theorem duplicate_rule_is_ignored (l1 l2 l3 : list OptimizationRule)
  (r : OptimizationRule) (context : RequestContext.t) :
  matchByRules (l1 ++ r :: l2 ++ r :: l3) context
  = matchByRules (l1 ++ r :: l2 ++ l3) context.
Proof.
  apply matchByRules_ext.
  - unfold encounterOrder. rewrite !enabledRules_app. simpl.
    rewrite !enabledRules_app. simpl.
    destruct (enabled r) eqn:En; trivial.
    rewrite !map_app. simpl. rewrite !map_app. simpl.
    set (T1 := map targetModel (enabledRules l1)).
    set (T2 := map targetModel (enabledRules l2)).
    set (T3 := map targetModel (enabledRules l3)).
    change (T1 ++ targetModel r :: T2 ++ targetModel r :: T3)
      with (T1 ++ (targetModel r :: T2) ++ targetModel r :: T3).
    change (T1 ++ targetModel r :: T2 ++ T3)
      with (T1 ++ (targetModel r :: T2) ++ T3).
    rewrite !app_assoc. apply firstSeen_dup.
    rewrite mem_app. unfold mem at 2. simpl.
    rewrite String.eqb_refl. simpl. apply orb_true_r.
  - intros m.
    change (l1 ++ r :: l2 ++ r :: l3) with (l1 ++ [r] ++ l2 ++ [r] ++ l3).
    change (l1 ++ r :: l2 ++ l3) with (l1 ++ [r] ++ l2 ++ l3).
    rewrite !groupOf_app, !groupMatches_app.
    destruct (groupMatches context (groupOf m l1)),
             (groupMatches context (groupOf m [r])),
             (groupMatches context (groupOf m l2)),
             (groupMatches context (groupOf m l3)); reflexivity.
Qed.

(** * Further properties of [matchByRules] *)

Lemma firstMatch_None (context : RequestContext.t) (es : Groups) :
  firstMatch context es = None ->
  forall k v, In (k, v) es -> groupMatches context v = false.
Proof.
  induction es as [|[k v] es IH]; simpl; [tauto|].
  destruct (groupMatches context v) eqn:E; [discriminate|].
  intros H k' v' [[= <- <-]|H']; eauto.
Qed.

Lemma firstMatch_app (context : RequestContext.t) (es1 es2 : Groups) :
  firstMatch context (es1 ++ es2)
  = match firstMatch context es1 with
    | Some m => Some m
    | None => firstMatch context es2
    end.
Proof.
  induction es1 as [|[k v] es1 IH]; simpl; trivial.
  now destruct (groupMatches context v).
Qed.

Lemma groupsOf_In (rules : list OptimizationRule) (k : string)
  (v : list OptimizationRule) :
  In (k, v) (groupsOf rules) <->
  In k (encounterOrder rules) /\ v = groupOf k rules.
Proof.
  unfold groupsOf. rewrite in_map_iff. split.
  - intros (m & [= -> <-] & H). auto.
  - intros (H & ->). eauto.
Qed.

Lemma targetsInherited_true (rules : list OptimizationRule) :
  targetsInherited rules = true <->
  exists r, In r rules /\ enabled r = true
            /\ In (targetModel r) objectPrototypeKeys.
Proof.
  unfold targetsInherited, enabledRules. rewrite existsb_exists. split.
  - intros (r & Hr & Hi). apply filter_In in Hr. exists r.
    repeat split; try tauto. now apply mem_In.
  - intros (r & Hr & He & Hi). exists r. split.
    + apply filter_In. auto.
    + now apply mem_In.
Qed.

Lemma fullyMatches_spec (rules : list OptimizationRule)
  (context : RequestContext.t) (m : string) :
  fullyMatches rules context m = true <->
  In m (encounterOrder rules)
  /\ groupMatches context (groupOf m rules) = true.
Proof.
  unfold fullyMatches. rewrite andb_true_iff, mem_In.
  unfold encounterOrder. now rewrite firstSeen_In.
Qed.

(** X1.  The method throws exactly when an enabled rule targets a property
    name inherited from [Object.prototype]; the context plays no part, and
    the error is always the [TypeError] of the failed [push]. *)
Theorem throws_iff_inherited_target (rules : list OptimizationRule)
  (context : RequestContext.t) :
  (exists e, matchByRules rules context = Throw e) <->
  (exists r, In r rules /\ enabled r = true
             /\ In (targetModel r) objectPrototypeKeys).
Proof.
  rewrite <- targetsInherited_true, matchByRules_spec.
  destruct (targetsInherited rules); split; eauto; try discriminate.
  intros (e & H). discriminate.
Qed.

Lemma matchByRules_None (rules : list OptimizationRule)
  (context : RequestContext.t) :
  matchByRules rules context = Normal None ->
  forall m, fullyMatches rules context m = false.
Proof.
  intros E. rewrite matchByRules_spec in E.
  destruct (targetsInherited rules); [discriminate|].
  injection E as E. intros m.
  destruct (fullyMatches rules context m) eqn:F; trivial.
  apply fullyMatches_spec in F. destruct F as (Hin & Hm).
  rewrite <- Hm.
  apply (firstMatch_None _ _ E m). apply entries_In.
  apply groupsOf_In. auto.
Qed.

(** X2.  When the method returns, a returned model is one whose group fully
    matches, and [null] is returned only when no target model fully
    matches: a fully matching group is never overlooked. *)
Theorem result_reflects_the_groups (rules : list OptimizationRule)
  (context : RequestContext.t) :
  match matchByRules rules context with
  | Normal (Some m) => fullyMatches rules context m = true
  | Normal None => forall m, fullyMatches rules context m = false
  | Throw _ => targetsInherited rules = true
  end.
Proof.
  destruct (matchByRules rules context) as [[m|]|e] eqn:E.
  - apply fullyMatches_spec. now apply matchByRules_Some.
  - now apply matchByRules_None.
  - rewrite matchByRules_spec in E.
    now destruct (targetsInherited rules).
Qed.

Lemma ruleFails_fewer_tokens (c c' : RequestContext.t) (r : OptimizationRule) :
  RequestContext.hasTools c' = RequestContext.hasTools c ->
  (RequestContext.tokenCount c' <= RequestContext.tokenCount c)%Z ->
  ruleFails c' r = true -> ruleFails c r = true.
Proof.
  intros Hb Hn. unfold ruleFails. rewrite Hb.
  destruct (String.eqb (ruleType r) "content_length"); trivial.
  destruct (Conditions.maxLength (conditions r)) as [k|]; simpl; trivial.
  rewrite !Z.gtb_ltb, !Z.ltb_lt. lia.
Qed.

Lemma groupMatches_fewer_tokens (c c' : RequestContext.t)
  (l : list OptimizationRule) :
  RequestContext.hasTools c' = RequestContext.hasTools c ->
  (RequestContext.tokenCount c' <= RequestContext.tokenCount c)%Z ->
  groupMatches c l = true -> groupMatches c' l = true.
Proof.
  intros Hb Hn. induction l as [|r l IH]; simpl; trivial.
  destruct (ruleFails c' r) eqn:E.
  - now rewrite (ruleFails_fewer_tokens c c' r Hb Hn E).
  - destruct (ruleFails c r); [discriminate | exact IH].
Qed.

(** X3.  A request that is routed is still routed when it carries fewer
    tokens and the same [hasTools]: lowering the token count never turns a
    match into [null] or into an error. *)
Theorem fewer_tokens_keep_a_route (rules : list OptimizationRule)
  (c c' : RequestContext.t) (m : string) :
  RequestContext.hasTools c' = RequestContext.hasTools c ->
  (RequestContext.tokenCount c' <= RequestContext.tokenCount c)%Z ->
  matchByRules rules c = Normal (Some m) ->
  exists m', matchByRules rules c' = Normal (Some m').
Proof.
  intros Hb Hn H.
  destruct (matchByRules_Some _ _ _ H) as (Hin & Hm).
  assert (F : fullyMatches rules c' m = true).
  { apply fullyMatches_spec. split; trivial.
    now apply (groupMatches_fewer_tokens c c'). }
  pose proof (matchByRules_None rules c') as Hc'.
  rewrite matchByRules_spec in H. rewrite matchByRules_spec in Hc' |- *.
  destruct (targetsInherited rules); [discriminate|].
  destruct (firstMatch c' (entries (groupsOf rules))) as [m'|]; eauto.
  rewrite (Hc' eq_refl m) in F. discriminate.
Qed.

Lemma fewer_tokens_keep_a_route_witness :
  exists m', matchByRules sampleRules (ctx 30 false) = Normal (Some m').
Proof.
  apply (fewer_tokens_keep_a_route sampleRules (ctx 200 false)
           (ctx 30 false) "large-model").
  - reflexivity.
  - simpl. lia.
  - reflexivity.
Defined.

(** ** Array-index model names *)

Lemma insertIndexed_ordered (e : N * (string * list OptimizationRule))
  (l : list (N * (string * list OptimizationRule))) :
  indexOrdered l -> indexOrdered (insertIndexed e l).
Proof.
  unfold indexOrdered. induction 1 as [|h t Ht IH Hh]; simpl.
  - repeat constructor.
  - destruct (fst e <=? fst h)%N eqn:E.
    + apply N.leb_le in E. constructor; [now constructor|].
      constructor; trivial.
      eapply Forall_impl; [|exact Hh]. intros x Hx. simpl in Hx. lia.
    + apply N.leb_gt in E. constructor; trivial.
      apply Forall_forall. intros x Hx. apply insertIndexed_In in Hx.
      destruct Hx as [-> | Hx]; [lia|].
      rewrite Forall_forall in Hh. now apply Hh.
Qed.

Lemma indexedEntries_ordered (o : Groups) : indexOrdered (indexedEntries o).
Proof.
  induction o as [|[k v] o IH]; simpl; [constructor|].
  destruct (arrayIndex k); trivial. now apply insertIndexed_ordered.
Qed.

Lemma firstMatch_ordered (context : RequestContext.t)
  (l : list (N * (string * list OptimizationRule))) (m : string) :
  indexOrdered l ->
  firstMatch context (map snd l) = Some m ->
  exists n v,
    In (n, (m, v)) l /\
    forall n' k' v', In (n', (k', v')) l ->
                     groupMatches context v' = true -> (n <= n')%N.
Proof.
  unfold indexOrdered. induction 1 as [|[n0 [k0 v0]] t Ht IH Hh]; simpl.
  - discriminate.
  - destruct (groupMatches context v0) eqn:E.
    + intros [= <-]. exists n0, v0. split; [now left|].
      intros n' k' v' [[= <- <- <-] | Hin] _; [lia|].
      rewrite Forall_forall in Hh. apply (Hh _ Hin).
    + intros H. destruct (IH H) as (n & v & Hin & Hmin).
      exists n, v. split; [now right|].
      intros n' k' v' [[= <- <- <-] | Hin'] Hm; [congruence|].
      now apply (Hmin n' k' v').
Qed.

(** X4.  Model names that are array indices take precedence over all other
    names, lowest index first: if a model named by an array index fully
    matches, the returned model is named by an array index too, and by the
    least one among the fully matching models. *)
Theorem least_array_index_wins (rules : list OptimizationRule)
  (context : RequestContext.t) (m m' : string) (n' : N) :
  matchByRules rules context = Normal (Some m) ->
  fullyMatches rules context m' = true ->
  arrayIndex m' = Some n' ->
  exists n, arrayIndex m = Some n /\ (n <= n')%N.
Proof.
  intros H F A. rewrite matchByRules_spec in H.
  destruct (targetsInherited rules); [discriminate|]. injection H as H.
  apply fullyMatches_spec in F. destruct F as (Hin & Hm).
  assert (Hidx : In (n', (m', groupOf m' rules))
                    (indexedEntries (groupsOf rules))).
  { apply indexedEntries_In. split; trivial. apply groupsOf_In. auto. }
  unfold entries in H. rewrite firstMatch_app in H.
  destruct (firstMatch context (map snd (indexedEntries (groupsOf rules))))
    as [m0|] eqn:E.
  - injection H as ->.
    destruct (firstMatch_ordered _ _ _ (indexedEntries_ordered _) E)
      as (n & v & Hnv & Hmin).
    exists n. split.
    + now apply indexedEntries_In in Hnv.
    + now apply (Hmin n' m' (groupOf m' rules)).
  - rewrite (firstMatch_None _ _ E m' (groupOf m' rules)) in Hm;
      [discriminate|].
    apply in_map_iff. exists (n', (m', groupOf m' rules)). auto.
Qed.

Lemma least_array_index_wins_witness :
  exists n,
    arrayIndex "7" = Some n /\ (n <= 10)%N.
Proof.
  apply (least_array_index_wins
           [lengthRule 500 "gpt"; lengthRule 500 "10"; lengthRule 500 "7"]
           (ctx 30 false) "7" "10" 10%N); reflexivity.
Defined.

(** ** The grouping loop *)

Lemma flat_map_ext_in {A B : Type} (f g : A -> list B) (l : list A) :
  (forall a, In a l -> f a = g a) -> flat_map f l = flat_map g l.
Proof.
  induction l as [|a l IH]; simpl; intros H; trivial.
  rewrite (H a (or_introl eq_refl)), IH; trivial.
  intros; apply H; now right.
Qed.





(** ** Appending rules *)

Lemma indexedEntries_app_plain (o1 o2 : Groups) :
  (forall e, In e o2 -> isArrayIndex (fst e) = false) ->
  indexedEntries (o1 ++ o2) = indexedEntries o1.
Proof.
  intros H. induction o1 as [|[k v] o1 IH]; simpl.
  - induction o2 as [|[k v] o2 IH]; simpl; trivial.
    pose proof (H (k, v) (or_introl eq_refl)) as Hk.
    unfold isArrayIndex in Hk. simpl in Hk.
    destruct (arrayIndex k); [discriminate|].
    apply IH. intros; apply H; now right.
  - now rewrite IH.
Qed.

Lemma entries_app_plain (o1 o2 : Groups) :
  (forall e, In e o2 -> isArrayIndex (fst e) = false) ->
  entries (o1 ++ o2) = entries o1 ++ o2.
Proof.
  intros H. unfold entries.
  rewrite (indexedEntries_app_plain _ _ H), filter_app, <- app_assoc.
  do 2 f_equal. apply filter_all. intros e He. now rewrite (H e He).
Qed.

Lemma groupsOf_app_new (rules extra : list OptimizationRule) :
  (forall r, In r extra -> enabled r = true ->
             ~ In (targetModel r) (encounterOrder rules)) ->
  exists ks,
    (forall k, In k ks -> In k (encounterOrder extra)) /\
    groupsOf (rules ++ extra)
    = groupsOf rules
      ++ map (fun m => (m, groupOf m (rules ++ extra))) ks.
Proof.
  intros Hnew.
  exists (filter (fun y => negb (mem y (map targetModel (enabledRules rules))))
                 (encounterOrder extra)).
  split.
  - intros k Hk. now apply filter_In in Hk.
  - unfold groupsOf at 1. unfold encounterOrder at 1.
    rewrite enabledRules_app, map_app, firstSeen_app, map_app.
    f_equal. unfold groupsOf. apply map_ext_in. intros k Hk. f_equal.
    rewrite groupOf_app, <- app_nil_r. f_equal.
    apply filter_none. intros r Hr. unfold hasTarget.
    apply String.eqb_neq. intros <-. unfold enabledRules in Hr.
    apply filter_In in Hr. destruct Hr as (Hr & He).
    now apply (Hnew r Hr He).
Qed.

(** X6.  Appending rules whose target models are new to the list, and are
    neither array indices nor names inherited from [Object.prototype],
    leaves an existing match as it is. *)
Theorem appended_new_models_keep_a_match
  (rules extra : list OptimizationRule) (context : RequestContext.t)
  (m : string) :
  (forall r, In r extra -> enabled r = true ->
             ~ In (targetModel r) (encounterOrder rules)
             /\ isArrayIndex (targetModel r) = false
             /\ inherited (targetModel r) = false) ->
  matchByRules rules context = Normal (Some m) ->
  matchByRules (rules ++ extra) context = Normal (Some m).
Proof.
  intros Hnew H. rewrite matchByRules_spec in H |- *.
  rewrite targetsInherited_app.
  destruct (targetsInherited rules); [discriminate|]. simpl.
  assert (Hi : targetsInherited extra = false).
  { unfold targetsInherited. destruct (existsb _ _) eqn:E; trivial.
    apply existsb_exists in E. destruct E as (r & Hr & Hi).
    unfold enabledRules in Hr. apply filter_In in Hr.
    destruct Hr as (Hr & He). destruct (Hnew r Hr He) as (_ & _ & Hi').
    congruence. }
  rewrite Hi. injection H as H. f_equal.
  destruct (groupsOf_app_new rules extra) as (ks & Hks & ->).
  { intros r Hr He. now destruct (Hnew r Hr He). }
  rewrite entries_app_plain.
  - now rewrite firstMatch_app, H.
  - intros e He. apply in_map_iff in He. destruct He as (k & <- & Hk).
    simpl. apply Hks, encounterOrder_In in Hk.
    destruct Hk as (r & Hr & He & <-). now destruct (Hnew r Hr He).
Qed.

Lemma appended_new_models_keep_a_match_witness :
  matchByRules (sampleRules ++ [lengthRule 9000 "huge-model"]) (ctx 200 false)
  = Normal (Some "large-model").
Proof.
  apply appended_new_models_keep_a_match; [|reflexivity].
  intros r [<- | []] _. repeat split.
  simpl. intros [H | [H | []]]; discriminate H.
Defined.

(** ** The fields the matcher reads *)

Lemma agree_enabled_targets (rules1 rules2 : list OptimizationRule) :
  Forall2 agreeOnMatchedFields rules1 rules2 ->
  map targetModel (enabledRules rules1)
  = map targetModel (enabledRules rules2).
Proof.
  induction 1 as [|r1 r2 l1 l2 (He & Ht & _) Hl IH]; simpl; trivial.
  rewrite <- He. destruct (enabled r1); simpl; congruence.
Qed.

Lemma agree_ruleFails (context : RequestContext.t)
  (r1 r2 : OptimizationRule) :
  agreeOnMatchedFields r1 r2 -> ruleFails context r1 = ruleFails context r2.
Proof.
  intros (_ & _ & Hty & Hc). unfold ruleFails. now rewrite Hty, Hc.
Qed.

Lemma agree_groupMatches (context : RequestContext.t) (m : string)
  (rules1 rules2 : list OptimizationRule) :
  Forall2 agreeOnMatchedFields rules1 rules2 ->
  groupMatches context (groupOf m rules1)
  = groupMatches context (groupOf m rules2).
Proof.
  unfold groupOf, enabledRules.
  induction 1 as [|r1 r2 l1 l2 Hr Hl IH]; simpl; trivial.
  pose proof (agree_ruleFails context r1 r2 Hr) as Hf.
  destruct Hr as (He & Ht & _). rewrite <- He.
  destruct (enabled r1); simpl; trivial.
  replace (hasTarget m r2) with (hasTarget m r1)
    by (unfold hasTarget; now rewrite Ht).
  destruct (hasTarget m r1); simpl; trivial.
  now rewrite Hf, IH.
Qed.

(** X7.  The method reads only [enabled], [targetModel], [ruleType] and
    [conditions]: two rule lists that agree on these fields position by
    position give the same outcome, whatever their [id], [entityType],
    [entityId] and [provider]. *)
Theorem matching_ignores_scope_and_provider
  (rules1 rules2 : list OptimizationRule) (context : RequestContext.t) :
  Forall2 agreeOnMatchedFields rules1 rules2 ->
  matchByRules rules1 context = matchByRules rules2 context.
Proof.
  intros H. apply matchByRules_ext.
  - unfold encounterOrder. now rewrite (agree_enabled_targets _ _ H).
  - intros m. now apply agree_groupMatches.
Qed.

Lemma matching_ignores_scope_and_provider_witness :
  matchByRules
    [mkRule "r1" "team" "t1" "anthropic" "content_length"
       (ContentLengthConditions 50) "small-model" true] (ctx 30 false)
  = matchByRules
      [mkRule "r2" "organization" "org" "openai" "content_length"
         (ContentLengthConditions 50) "small-model" true] (ctx 30 false).
Proof.
  apply matching_ignores_scope_and_provider.
  constructor; [|constructor]. repeat split.
Defined.

(** * The rule store *)

Lemma sql_true_eq (a b : string) :
  sql_true (sql_eq (Some a) (Some b)) = String.eqb a b.
Proof. simpl. now destruct (String.eqb a b). Qed.

Lemma leftJoin_In {A B : Type} (on : A -> B -> option bool)
  (l : list A) (r : list B) (a : A) (ob : option B) :
  In (a, ob) (leftJoin on l r) <->
  In a l /\
  match ob with
  | Some b => In b r /\ sql_true (on a b) = true
  | None => forall b, In b r -> sql_true (on a b) = false
  end.
Proof.
  unfold leftJoin. rewrite in_flat_map. split.
  - intros (a' & Ha' & Hin).
    destruct (filter (fun b => sql_true (on a' b)) r) as [|b0 bs] eqn:E.
    + destruct Hin as [[= <- <-] | []]. split; trivial.
      intros b Hb. destruct (sql_true (on a' b)) eqn:Hon; trivial.
      assert (In b (filter (fun b => sql_true (on a' b)) r))
        by (apply filter_In; auto).
      rewrite E in H. contradiction.
    + apply in_map_iff in Hin. destruct Hin as (b & [= <- <-] & Hb).
      rewrite <- E in Hb. apply filter_In in Hb. auto.
  - intros (Ha & Hob). exists a. split; trivial.
    destruct ob as [b|].
    + destruct Hob as (Hb & Hon).
      assert (Hin : In b (filter (fun b => sql_true (on a b)) r))
        by (apply filter_In; auto).
      destruct (filter (fun b => sql_true (on a b)) r) as [|b0 bs];
        [contradiction|].
      apply in_map_iff. eauto.
    + rewrite filter_none by exact Hob. now left.
Qed.

Lemma findByOrganizationId_sound (db : Database) (organizationId : string)
  (r : OptimizationRule) :
  In r (findByOrganizationId db organizationId) ->
  In r (optimizationRulesTable db) /\ visibleTo db organizationId r.
Proof.
  unfold findByOrganizationId, visibleTo. rewrite in_map_iff.
  intros ([r' ot] & E & Hin). simpl in E. subst r'.
  apply filter_In in Hin. destruct Hin as (Hj & Hw).
  apply leftJoin_In in Hj. destruct Hj as (Hr & Hot).
  split; trivial. simpl in Hw.
  destruct (String.eqb (entityType r) "organization") eqn:E1;
    destruct (String.eqb (entityId r) organizationId) eqn:E2;
    destruct (String.eqb (entityType r) "team") eqn:E3;
    destruct ot as [t|]; simpl in Hw; try discriminate;
    try (left; split; now apply String.eqb_eq).
  all: destruct (String.eqb (Team.organizationId t) organizationId) eqn:E4;
    simpl in Hw; try discriminate.
  all: right; split; [now apply String.eqb_eq|].
  all: destruct Hot as (Ht & Hon); simpl in Hon; rewrite E3 in Hon.
  all: destruct (String.eqb (entityId r) (Team.id t)) eqn:E5;
    simpl in Hon; try discriminate.
  all: exists t; repeat split; trivial;
    [symmetry; now apply String.eqb_eq | now apply String.eqb_eq].
Qed.

Lemma findByOrganizationId_complete (db : Database) (organizationId : string)
  (r : OptimizationRule) :
  In r (optimizationRulesTable db) -> visibleTo db organizationId r ->
  In r (findByOrganizationId db organizationId).
Proof.
  unfold findByOrganizationId, visibleTo. rewrite in_map_iff.
  intros Hr [(Et & Ei) | (Et & t & Ht & Hid & Horg)].
  - exists (r, None). split; trivial. apply filter_In. split.
    + apply leftJoin_In. split; trivial. intros b _. simpl.
      rewrite Et. reflexivity.
    + simpl. rewrite Et, Ei, !String.eqb_refl. reflexivity.
  - exists (r, Some t). split; trivial. apply filter_In. split.
    + apply leftJoin_In. split; trivial. split; trivial. simpl.
      rewrite Et, Hid, !String.eqb_refl. reflexivity.
    + simpl. rewrite Et, Horg, !String.eqb_refl. simpl.
      now destruct (String.eqb (entityId r) organizationId).
Qed.

Lemma findByOrganizationId_In (db : Database) (organizationId : string)
  (r : OptimizationRule) :
  In r (findByOrganizationId db organizationId) <->
  In r (optimizationRulesTable db) /\ visibleTo db organizationId r.
Proof.
  split.
  - apply findByOrganizationId_sound.
  - intros (Hr & Hv). now apply findByOrganizationId_complete.
Qed.

(** X8.  [findByOrganizationId] returns exactly the stored rules that belong
    to the organization itself or to a team whose [organizationId] is the
    organization; a team rule whose team is missing from the teams table is
    never returned. *)
Theorem findByOrganizationId_returns_the_visible_rules (db : Database)
  (organizationId : string) (r : OptimizationRule) :
  In r (findByOrganizationId db organizationId) <->
  In r (optimizationRulesTable db) /\ visibleTo db organizationId r.
Proof.
  split.
  - intros H. now apply findByOrganizationId_sound.
  - intros (Hr & Hv). now apply findByOrganizationId_complete.
Qed.

Lemma findEnabled_In (db : Database) (organizationId provider_ : string)
  (r : OptimizationRule) :
  In r (findEnabledByOrganizationAndProvider db organizationId provider_) <->
  In r (optimizationRulesTable db) /\ entityType r = "organization" /\
  entityId r = organizationId /\ provider r = provider_ /\ enabled r = true.
Proof.
  unfold findEnabledByOrganizationAndProvider. rewrite filter_In.
  rewrite <- !String.eqb_eq. simpl.
  destruct (String.eqb (entityType r) "organization"),
           (String.eqb (entityId r) organizationId),
           (String.eqb (provider r) provider_), (enabled r); simpl;
    intuition congruence.
Qed.

(** X9.  Every rule [findEnabledByOrganizationAndProvider] returns is
    enabled, is of the asked provider, belongs to the organization itself
    and is among the rules [findByOrganizationId] returns; the rules of the
    organization's teams are never returned. *)
Theorem findEnabled_returns_organization_rules_only (db : Database)
  (organizationId provider_ : string) (r : OptimizationRule) :
  In r (findEnabledByOrganizationAndProvider db organizationId provider_) ->
  In r (findByOrganizationId db organizationId)
  /\ enabled r = true /\ provider r = provider_
  /\ entityType r = "organization" /\ entityType r <> "team".
Proof.
  intros H. apply findEnabled_In in H.
  destruct H as (Hr & Et & Ei & Hp & He).
  repeat split; trivial.
  - apply findByOrganizationId_In. split; trivial. left. auto.
  - rewrite Et. discriminate.
Qed.

Lemma findEnabled_returns_organization_rules_only_witness :
  In (mkRule "r1" "organization" "org" "openai" "content_length"
        (ContentLengthConditions 50) "small-model" true)
     (findByOrganizationId sampleDb "org").
Proof.
  apply (findEnabled_returns_organization_rules_only sampleDb "org" "openai").
  simpl. now left.
Defined.

Lemma sql_true_and (a b : option bool) :
  sql_true (sql_and a b) = sql_true a && sql_true b.
Proof. now destruct a as [[|]|], b as [[|]|]. Qed.

Lemma sql_true_or (a b : option bool) :
  sql_true (sql_or a b) = sql_true a || sql_true b.
Proof. now destruct a as [[|]|], b as [[|]|]. Qed.

Lemma map_filter_flat_map {A B C : Type} (f : B -> C) (w : B -> bool)
  (g : A -> list B) (l : list A) :
  map f (filter w (flat_map g l))
  = flat_map (fun a => map f (filter w (g a))) l.
Proof.
  induction l as [|a l IH]; simpl; trivial.
  now rewrite filter_app, map_app, IH.
Qed.

Lemma filter_as_flat_map {A : Type} (P : A -> bool) (l : list A) :
  filter P l = flat_map (fun a => if P a then [a] else []) l.
Proof.
  induction l as [|a l IH]; simpl; trivial. rewrite IH. now destruct (P a).
Qed.

Lemma existsb_filter_and {A : Type} (f g : A -> bool) (l : list A) :
  existsb (fun t => f t && g t) l = existsb g (filter f l).
Proof.
  induction l as [|a l IH]; simpl; trivial.
  rewrite IH. now destruct (f a).
Qed.

Lemma filter_key_unique (teams : list Team.t) (k : string) :
  NoDup (map Team.id teams) ->
  filter (fun t => String.eqb k (Team.id t)) teams = []
  \/ exists t, filter (fun t => String.eqb k (Team.id t)) teams = [t].
Proof.
  induction teams as [|a l IH]; simpl; intros Hnd; [now left|].
  inversion Hnd as [|x xs Hx Hxs]; subst.
  destruct (String.eqb k (Team.id a)) eqn:E.
  - right. exists a. f_equal. apply filter_none. intros t Ht.
    apply String.eqb_neq. intros ->. apply String.eqb_eq in E.
    apply Hx. rewrite <- E. now apply in_map.
  - now apply IH.
Qed.

(** The rows of the join that stem from one rule, after the [where]. *)
Lemma findByOrganizationId_row (db : Database) (organizationId : string)
  (r : OptimizationRule) :
  NoDup (map Team.id (teamsTable db)) ->
  map fst
    (filter
       (fun row =>
          sql_true
            (sql_or
               (sql_and
                  (sql_eq (Some (entityType (fst row))) (Some "organization"))
                  (sql_eq (Some (entityId (fst row))) (Some organizationId)))
               (sql_and
                  (sql_eq (Some (entityType (fst row))) (Some "team"))
                  (sql_eq (option_map Team.organizationId (snd row))
                          (Some organizationId)))))
       match
         filter
           (fun t =>
              sql_true
                (sql_and
                   (sql_eq (Some (entityType r)) (Some "team"))
                   (sql_eq (Some (entityId r)) (Some (Team.id t)))))
           (teamsTable db)
       with
       | [] => [(r, None)]
       | bs => map (fun b => (r, Some b)) bs
       end)
  = if visibleToB db organizationId r then [r] else [].
Proof.
  intros Hnd. unfold visibleToB.
  rewrite (filter_ext _
             (fun t => String.eqb (entityType r) "team"
                       && String.eqb (entityId r) (Team.id t)))
    by (intros t; now rewrite sql_true_and, !sql_true_eq).
  destruct (String.eqb (entityType r) "team") eqn:Et.
  - simpl andb at 1. rewrite existsb_filter_and.
    destruct (filter_key_unique (teamsTable db) (entityId r) Hnd)
      as [-> | (t & ->)]; simpl.
    + rewrite Et. simpl.
      destruct (String.eqb (entityType r) "organization") eqn:Eo.
      * apply String.eqb_eq in Eo. apply String.eqb_eq in Et. congruence.
      * reflexivity.
    + rewrite Et. simpl.
      destruct (String.eqb (entityType r) "organization") eqn:Eo.
      * apply String.eqb_eq in Eo. apply String.eqb_eq in Et. congruence.
      * simpl. rewrite orb_false_r.
        now destruct (String.eqb (Team.organizationId t) organizationId).
  - assert (E : filter (fun t : Team.t =>
                          false && String.eqb (entityId r) (Team.id t))
                       (teamsTable db) = [])
      by (apply filter_none; reflexivity).
    rewrite E. simpl. rewrite Et. simpl.
    rewrite orb_false_r.
    now destruct (String.eqb (entityType r) "organization"),
                 (String.eqb (entityId r) organizationId).
Qed.

(** X10.  When team ids are unique, [findByOrganizationId] returns each
    stored rule that is visible to the organization once per stored row,
    and nothing else: the join with the teams table duplicates no rule. *)
Theorem findByOrganizationId_duplicates_nothing (db : Database)
  (organizationId : string) :
  NoDup (map Team.id (teamsTable db)) ->
  Permutation (findByOrganizationId db organizationId)
              (filter (visibleToB db organizationId)
                      (optimizationRulesTable db)).
Proof.
  intros Hnd. unfold findByOrganizationId, leftJoin.
  rewrite map_filter_flat_map, filter_as_flat_map.
  rewrite (flat_map_ext_in _
             (fun a => if visibleToB db organizationId a then [a] else [])).
  - apply Permutation_refl.
  - intros r _. now apply findByOrganizationId_row.
Qed.

Lemma findByOrganizationId_duplicates_nothing_witness :
  Permutation (findByOrganizationId sampleDb "org")
              (filter (visibleToB sampleDb "org")
                      (optimizationRulesTable sampleDb)).
Proof.
  apply findByOrganizationId_duplicates_nothing.
  simpl. constructor.
  - intros [H | []]. discriminate H.
  - constructor; [intros [] | constructor].
Defined.

(** With two teams of the same id the join returns a rule twice. *)
Example findByOrganizationId_duplicate_team_ids :
  List.length
    (findByOrganizationId
       (mkDatabase
          [mkRule "r3" "team" "t1" "openai" "tool_presence"
             (ToolPresenceConditions true) "tool-model" true]
          [Team.mk "t1" "org"; Team.mk "t1" "org"])
       "org") = 2.
Proof. reflexivity. Qed.

Lemma length_filter_pos {A : Type} (f : A -> bool) (l : list A) :
  Nat.ltb 0 (List.length (filter f l)) = true <->
  exists x, In x l /\ f x = true.
Proof.
  rewrite Nat.ltb_lt. split.
  - destruct (filter f l) as [|x t] eqn:E; simpl; [lia|]. intros _.
    exists x. apply filter_In. rewrite E. now left.
  - intros (x & Hx & Hf).
    assert (Hin : In x (filter f l)) by (apply filter_In; auto).
    destruct (filter f l); [contradiction | simpl; lia].
Qed.

(** X11.  [delete] returns [true] exactly when a stored rule carries the
    id; it removes the rules of that id and no other, leaves the teams
    alone, and removes the rules from what [findByOrganizationId] returns;
    deleting the same id again returns [false] and changes nothing. *)
Theorem delete_removes_exactly_the_id (db : Database) (id_ : string) :
  (snd (delete db id_) = true <->
   exists r, In r (optimizationRulesTable db) /\ id r = id_)
  /\ (forall r, In r (optimizationRulesTable (fst (delete db id_))) <->
                In r (optimizationRulesTable db) /\ id r <> id_)
  /\ teamsTable (fst (delete db id_)) = teamsTable db
  /\ delete (fst (delete db id_)) id_ = (fst (delete db id_), false)
  /\ (forall organizationId r,
        In r (findByOrganizationId (fst (delete db id_)) organizationId) <->
        In r (findByOrganizationId db organizationId) /\ id r <> id_).
Proof.
  assert (Hrem : forall r,
             In r (optimizationRulesTable (fst (delete db id_))) <->
             In r (optimizationRulesTable db) /\ id r <> id_).
  { intros r. unfold delete. cbv zeta. cbn [fst optimizationRulesTable].
    rewrite filter_In, sql_true_eq, negb_true_iff, String.eqb_neq.
    reflexivity. }
  split; [|split; [exact Hrem|split; [reflexivity|split]]].
  - unfold delete. cbv zeta. cbn [snd]. rewrite length_filter_pos.
    split; intros (r & Hr & H); exists r; split; trivial.
    + rewrite sql_true_eq in H. now apply String.eqb_eq.
    + rewrite sql_true_eq. now apply String.eqb_eq.
  - unfold delete. cbv zeta.
    cbn [fst snd optimizationRulesTable teamsTable].
    rewrite !filter_andb. f_equal.
    + f_equal. apply filter_ext. intros r. apply andb_diag.
    + rewrite filter_none; trivial. intros r _. apply andb_negb_l.
  - intros organizationId r. rewrite !findByOrganizationId_In, Hrem.
    unfold visibleTo. cbn [delete fst teamsTable]. tauto.
Qed.

(** * Queries and matching together *)

(** X12.  When the rules come from [findEnabledByOrganizationAndProvider],
    the matcher skips none of them, and a model it returns is the target of
    a stored, enabled rule of that very organization and provider which
    matches the context: a team's rule, a disabled rule or another
    provider's rule never decides the routing. *)
Theorem routing_uses_enabled_organization_rules (db : Database)
  (organizationId provider_ : string) (context : RequestContext.t) :
  enabledRules
    (findEnabledByOrganizationAndProvider db organizationId provider_)
  = findEnabledByOrganizationAndProvider db organizationId provider_
  /\ forall m,
       matchByRules
         (findEnabledByOrganizationAndProvider db organizationId provider_)
         context = Normal (Some m) ->
       exists r,
         In r (optimizationRulesTable db) /\
         entityType r = "organization" /\ entityId r = organizationId /\
         provider r = provider_ /\ enabled r = true /\
         targetModel r = m /\ ruleMatches context r = true.
Proof.
  split.
  - apply filter_all. intros r Hr. now apply findEnabled_In in Hr.
  - intros m H. apply matchByRules_Some in H. destruct H as (Hin & Hm).
    apply encounterOrder_In in Hin. destruct Hin as (r & Hr & He & Ht).
    exists r. pose proof (proj1 (findEnabled_In _ _ _ _) Hr) as Hq.
    repeat split; try tauto.
    rewrite groupMatches_forallb, forallb_forall in Hm.
    apply Hm, groupOf_In. auto.
Qed.

Lemma routing_uses_enabled_organization_rules_witness :
  exists r,
    In r (optimizationRulesTable sampleDb) /\
    entityType r = "organization" /\ entityId r = "org" /\
    provider r = "openai" /\ enabled r = true /\
    targetModel r = "small-model" /\ ruleMatches (ctx 30 true) r = true.
Proof.
  apply (proj2 (routing_uses_enabled_organization_rules sampleDb "org"
                  "openai" (ctx 30 true))).
  reflexivity.
Defined.

(** * The connection instructions *)

Lemma append_assoc (a b c : string) :
  ((a ++ b) ++ c)%string = (a ++ (b ++ c))%string.
Proof. induction a as [|x a IH]; simpl; congruence. Qed.

Lemma append_inj_l (a b c : string) :
  (a ++ b)%string = (a ++ c)%string -> b = c.
Proof. induction a as [|x a IH]; simpl; [trivial | intros [= H]; auto]. Qed.

Lemma append_nonempty (a b : string) (x : ascii) :
  (a ++ String x b)%string <> "".
Proof. destruct a; discriminate. Qed.

Lemma proxyUrl_nonempty (connectionUrl : string)
  (selectedProvider : ProviderOption) (agentId : option string) :
  String.eqb (proxyUrl connectionUrl selectedProvider agentId) "" = false.
Proof.
  apply String.eqb_neq. unfold proxyUrl.
  destruct (truthy agentId); apply append_nonempty.
Qed.

(** X13.  The command shown for Claude Code carries the proxy URL of the
    selected state, which is the proxy URL of the [anthropic] provider,
    with or without an agent id. *)
Theorem claude_code_command_uses_the_anthropic_proxy_url
  (connectionUrl : string) (agentId : option string) :
  claudeCodeCommand connectionUrl agentId
  = ("ANTHROPIC_BASE_URL=" ++ proxyUrl connectionUrl claude_code agentId
     ++ " claude")%string
  /\ proxyUrl connectionUrl claude_code agentId
     = proxyUrl connectionUrl (supported anthropic) agentId.
Proof.
  split; [|reflexivity].
  unfold claudeCodeCommand, proxyUrl. f_equal.
  destruct (truthy agentId) as [a|]; simpl;
    rewrite !append_assoc; reflexivity.
Qed.

(** X14.  In every state the component shows the command, when and only
    when Claude Code is selected, or else the provider's label with the
    replacement row: the row is never withheld, for the proxy URL is never
    empty, even with an empty connection URL. *)
Theorem instructions_always_show_a_command_or_a_url
  (providerDisplayNames : SupportedProvider -> string)
  (connectionUrl : string) (selectedProvider : ProviderOption)
  (agentId : option string) :
  match ProxyConnectionInstructions providerDisplayNames connectionUrl
          selectedProvider agentId with
  | RunCommand command =>
      selectedProvider = claude_code
      /\ command = claudeCodeCommand connectionUrl agentId
  | ReplaceBaseUrl label row =>
      exists p originalUrl,
        selectedProvider = supported p /\ label = providerDisplayNames p
        /\ row = Some (originalUrl,
                       proxyUrl connectionUrl selectedProvider agentId)
  end.
Proof.
  unfold ProxyConnectionInstructions, UrlReplacementRow.
  destruct selectedProvider as [p|]; [|simpl; auto].
  rewrite proxyUrl_nonempty.
  destruct p; simpl; eauto.
Qed.

(** X15.  For a given connection URL the proxy URL tells the provider path
    and the agent apart: two states with the same proxy URL have the same
    provider path, so they differ at most as [anthropic] and Claude Code
    do, and the same agent id, an empty id counting as none. *)
Theorem proxy_url_identifies_provider_and_agent (connectionUrl : string)
  (p p' : ProviderOption) (a a' : option string) :
  proxyUrl connectionUrl p a = proxyUrl connectionUrl p' a' ->
  getProviderPath p = getProviderPath p' /\ truthy a = truthy a'.
Proof.
  unfold proxyUrl. intros H.
  destruct (truthy a) as [s|], (truthy a') as [s'|];
    apply append_inj_l in H;
    destruct p as [[]|], p' as [[]|]; simpl in H |- *;
    split; congruence.
Qed.

Lemma proxy_url_identifies_provider_and_agent_witness :
  getProviderPath claude_code = getProviderPath (supported anthropic)
  /\ truthy (Some "") = truthy None.
Proof.
  apply (proxy_url_identifies_provider_and_agent "http://localhost:9000/v1").
  reflexivity.
Defined.
